(** * Financialadvisor: the pipeline orchestrator and the SMS notifier

    A shallow embedding of [src/dagger/src/main/__init__.py]: the two methods of
    the class [Financialadvisor], [run_pipeline] and [send], together with the
    pieces of the Python runtime they lean on ([str] containment, f-string
    concatenation, [except Exception], [json.loads(..).get] with the limits
    the interpreter puts on it, [urllib.parse.quote]).

    Every [await] in the source is a call to a collaborator outside the module
    (another Dagger module, the secret store, a curl container).  Such a call is
    an event: the outside world answers it with a value or with an exception, as
    a function of everything that happened before.  A method is a computation
    that reads the history and emits the events it performs. *)

From Stdlib Require Import ZArith List String Ascii Bool Lia DecimalString.
Import ListNotations.

#[local] Set Warnings "-register-all".

Local Open Scope Z_scope.
Local Open Scope list_scope.

(** ** Python strings

    A [str] is a sequence of Unicode code points, a [bytes] object a sequence
    of octets.  String literals of the source are ASCII and are written with
    [lit]. *)

Definition str := list Z.
Definition bytes := list Z.

Definition code (a : ascii) : Z := Z.of_N (N_of_ascii a).

Fixpoint lit (s : string) : str :=
  match s with
  | EmptyString => []
  | String a s' => code a :: lit s'
  end.

Definition is_byte (b : Z) : Prop := 0 <= b < 256.

Definition wf_code_point (c : Z) : Prop := 0 <= c < 0x110000.
Definition wf_str (s : str) : Prop := Forall wf_code_point s.

Fixpoint str_eqb (a b : str) : bool :=
  match a, b with
  | [], [] => true
  | x :: a', y :: b' => (x =? y) && str_eqb a' b'
  | _, _ => false
  end.

(** [startswith p s]: [s.startswith(p)]. *)
Fixpoint startswith (p s : str) : bool :=
  match p, s with
  | [], _ => true
  | x :: p', y :: s' => (x =? y) && startswith p' s'
  | _ :: _, [] => false
  end.

(** [contains p s]: the Python test [p in s] on two strings, true when [p]
    occurs in [s] as a contiguous run. *)
Fixpoint contains (p s : str) : bool :=
  startswith p s ||
  match s with
  | [] => false
  | _ :: s' => contains p s'
  end.

(** ** Exceptions and results *)

(** An exception object: the name of its class, whether that class derives
    from [Exception] (the test of [except Exception]), and its text
    [str(e)]. *)
Record exn : Type := PyExn {
  exn_class : string;
  exn_is_exception : bool;
  exn_msg : str
}.

(** An instance of a class below [Exception]. *)
Definition Exn (class : string) (msg : str) : exn := PyExn class true msg.

(** An instance of a class that derives from [BaseException] and not from
    [Exception]: [asyncio.CancelledError], [KeyboardInterrupt],
    [SystemExit], [GeneratorExit]. *)
Definition BaseExn (class : string) (msg : str) : exn := PyExn class false msg.

Inductive result (A : Type) : Type :=
| Ok (a : A)
| Raise (e : exn).
Arguments Ok {A} a.
Arguments Raise {A} e.

(** ** The outside world *)

(** A Dagger [Secret] is an opaque handle; only the engine resolves it. *)
Inductive Secret : Type := SecretRef (name : str).

(** The awaited calls of the module, with the arguments the source passes. *)
Inductive call : Type :=
| FetchData (apiKey sheet : Secret)
| Filter (json_resp : str) (connection : Secret) (database collection : str)
| Categorize (new_transactions : str) (hftoken : Secret)
| WriteMongo (categorized_transactions : str) (connection : Secret)
             (database collection : str)
| GetData (connection : Secret) (database collection : str)
| Generate (get_data : str) (openai connection : Secret)
| Plaintext (secret : Secret)
| ContainerExec (image : str) (argv : list str).

(** An event is a call with the world's answer; a trace lists events. *)
Abbreviation event := (call * result str)%type.
Abbreviation trace := (list (call * result str)).

(** The world answers a call knowing the history of the run so far. *)
Definition world : Type := trace -> call -> result str.

(** ** Computations

    [M A] takes the history before the computation and returns its outcome
    with the events it performed, oldest first. *)
Definition M (A : Type) : Type := trace -> result A * trace.

Definition ret {A} (a : A) : M A := fun _ => (Ok a, []).

Definition raise {A} (e : exn) : M A := fun _ => (Raise e, []).

Definition bind {A B} (m : M A) (f : A -> M B) : M B :=
  fun h =>
    match m h with
    | (Ok a, d) => let (r, d') := f a (h ++ d) in (r, d ++ d')
    | (Raise e, d) => (Raise e, d)
    end.

(** [try: m except Exception as e: h e].  The clause handles the instances
    of [Exception]; any other exception leaves the statement as it is. *)
Definition try_except {A} (m : M A) (h : exn -> M A) : M A :=
  fun h0 =>
    match m h0 with
    | (Ok a, d) => (Ok a, d)
    | (Raise e, d) =>
        if exn_is_exception e
        then let (r, d') := h e (h0 ++ d) in (r, d ++ d')
        else (Raise e, d)
    end.

Definition lift {A} (r : result A) : M A := fun _ => (r, []).

Declare Scope py_scope.
Delimit Scope py_scope with py.
Notation "x <- m ;; k" := (bind m (fun x => k))
  (at level 61, m at next level, right associativity) : py_scope.
Notation "m ;;; k" := (bind m (fun _ => k))
  (at level 61, right associativity) : py_scope.

(** ** Numbers in messages *)

(** [n] in decimal, as [%d] prints it. *)
Definition decimal (n : nat) : str := lit (NilEmpty.string_of_uint (Nat.to_uint n)).

Definition hex_lower (n : Z) : Z :=
  nth (Z.to_nat n) (lit "0123456789abcdef") 0.

(** [ch] below 0x10000 in four hex digits, as [%04x] prints it. *)
Definition hex04 (ch : Z) : str :=
  [hex_lower (ch / 4096); hex_lower ((ch / 256) mod 16);
   hex_lower ((ch / 16) mod 16); hex_lower (ch mod 16)].

(** ** UTF-8

    [str.encode('utf-8', 'strict')] and [bytes.decode('utf-8', 'replace')],
    after CPython's [stringlib] codecs: the encoder refuses surrogates, the
    decoder substitutes U+FFFD for each malformed run and resumes behind it. *)

Definition is_surrogate (ch : Z) : bool := (0xD800 <=? ch) && (ch <=? 0xDFFF).

(** The [UnicodeEncodeError] of the UTF-8 codec for the surrogates of
    [object] from [start] up to [stop] (excluded); [str(e)] shows the
    character when it is a single one, the positions otherwise. *)
Definition UnicodeEncodeError (object : str) (start stop : nat) : exn :=
  Exn "UnicodeEncodeError"
    (if (stop =? S start)%nat
     then lit "'utf-8' codec can't encode character '\u" ++ hex04 (nth start object 0)
            ++ lit "' in position " ++ decimal start ++ lit ": surrogates not allowed"
     else lit "'utf-8' codec can't encode characters in position " ++ decimal start
            ++ lit "-" ++ decimal (stop - 1) ++ lit ": surrogates not allowed").

(** The bytes of one character; a surrogate has none. *)
Definition utf8_encode_char (ch : Z) : option bytes :=
  if ch <? 0x80 then Some [ch]
  else if ch <? 0x800 then
    Some [Z.lor 0xC0 (Z.shiftr ch 6); Z.lor 0x80 (Z.land ch 0x3F)]
  else if is_surrogate ch then None
  else if ch <? 0x10000 then
    Some [Z.lor 0xE0 (Z.shiftr ch 12);
          Z.lor 0x80 (Z.land (Z.shiftr ch 6) 0x3F);
          Z.lor 0x80 (Z.land ch 0x3F)]
  else
    Some [Z.lor 0xF0 (Z.shiftr ch 18);
          Z.lor 0x80 (Z.land (Z.shiftr ch 12) 0x3F);
          Z.lor 0x80 (Z.land (Z.shiftr ch 6) 0x3F);
          Z.lor 0x80 (Z.land ch 0x3F)].

(** The number of surrogates a string starts with. *)
Fixpoint surrogate_run (s : str) : nat :=
  match s with
  | ch :: s' => if is_surrogate ch then S (surrogate_run s') else 0
  | [] => 0
  end.

(** The encoder's loop over the characters of [object] from position [pos]
    on, [s] being what is left; at a surrogate the strict error handler
    raises for the whole run of surrogates that starts there. *)
Fixpoint utf8_encode_from (object : str) (pos : nat) (s : str) : result bytes :=
  match s with
  | [] => Ok []
  | ch :: s' =>
      match utf8_encode_char ch with
      | None => Raise (UnicodeEncodeError object pos (pos + surrogate_run s))
      | Some bs =>
          match utf8_encode_from object (S pos) s' with
          | Raise e => Raise e
          | Ok bs' => Ok (bs ++ bs')
          end
      end
  end.

Definition utf8_encode (s : str) : result bytes := utf8_encode_from s 0 s.

Definition is_continuation_byte (ch : Z) : bool := (0x80 <=? ch) && (ch <? 0xC0).

Definition REPLACEMENT : Z := 0xFFFD.

Fixpoint utf8_decode (bs : bytes) : str :=
  match bs with
  | [] => []
  | ch :: s1 =>
      if ch <? 0x80 then ch :: utf8_decode s1
      else if ch <? 0xC2 then REPLACEMENT :: utf8_decode s1
      else if ch <? 0xE0 then
        match s1 with
        | [] => [REPLACEMENT]
        | ch2 :: s2 =>
            if negb (is_continuation_byte ch2) then REPLACEMENT :: utf8_decode s1
            else (Z.shiftl ch 6 + ch2 - (Z.shiftl 0xC0 6 + 0x80)) :: utf8_decode s2
        end
      else if ch <? 0xF0 then
        match s1 with
        | [] => [REPLACEMENT]
        | ch2 :: s2 =>
            if negb (is_continuation_byte ch2)
               || (if ch2 <? 0xA0 then ch =? 0xE0 else ch =? 0xED)
            then REPLACEMENT :: utf8_decode s1
            else
              match s2 with
              | [] => [REPLACEMENT]
              | ch3 :: s3 =>
                  if negb (is_continuation_byte ch3) then REPLACEMENT :: utf8_decode s2
                  else (Z.shiftl ch 12 + Z.shiftl ch2 6 + ch3
                        - (Z.shiftl 0xE0 12 + Z.shiftl 0x80 6 + 0x80)) :: utf8_decode s3
              end
        end
      else if ch <? 0xF5 then
        match s1 with
        | [] => [REPLACEMENT]
        | ch2 :: s2 =>
            if negb (is_continuation_byte ch2)
               || (if ch2 <? 0x90 then ch =? 0xF0 else ch =? 0xF4)
            then REPLACEMENT :: utf8_decode s1
            else
              match s2 with
              | [] => [REPLACEMENT]
              | ch3 :: s3 =>
                  if negb (is_continuation_byte ch3) then REPLACEMENT :: utf8_decode s2
                  else
                    match s3 with
                    | [] => [REPLACEMENT]
                    | ch4 :: s4 =>
                        if negb (is_continuation_byte ch4)
                        then REPLACEMENT :: utf8_decode s3
                        else (Z.shiftl ch 18 + Z.shiftl ch2 12 + Z.shiftl ch3 6 + ch4
                              - (Z.shiftl 0xF0 18 + Z.shiftl 0x80 12
                                 + Z.shiftl 0x80 6 + 0x80)) :: utf8_decode s4
                    end
              end
        end
      else REPLACEMENT :: utf8_decode s1
  end.

(** ** Python values, as [json.loads] builds them *)

Inductive pyval : Type :=
| PNone
| PBool (b : bool)
| PInt (n : Z)
| PFloat (lexeme : str)
| PStr (s : str)
| PList (items : list pyval)
| PDict (items : list (str * pyval)).

(** [d[k] = v] on a dict kept in insertion order. *)
Fixpoint dict_set (k : str) (v : pyval) (d : list (str * pyval)) : list (str * pyval) :=
  match d with
  | [] => [(k, v)]
  | (k', v') :: d' => if str_eqb k k' then (k, v) :: d' else (k', v') :: dict_set k v d'
  end.

Fixpoint dict_get (k : str) (d : list (str * pyval)) : option pyval :=
  match d with
  | [] => None
  | (k', v') :: d' => if str_eqb k k' then Some v' else dict_get k d'
  end.

Definition type_name (v : pyval) : string :=
  match v with
  | PNone => "NoneType"
  | PBool _ => "bool"
  | PInt _ => "int"
  | PFloat _ => "float"
  | PStr _ => "str"
  | PList _ => "list"
  | PDict _ => "dict"
  end.

(** [v.get(k)]: only a dict has the method; a missing key gives [None]. *)
Definition py_get (v : pyval) (k : str) : result pyval :=
  match v with
  | PDict d => Ok (match dict_get k d with Some x => x | None => PNone end)
  | _ => Raise (Exn "AttributeError"
                  (lit "'" ++ lit (type_name v) ++ lit "' object has no attribute 'get'"))
  end.

(** ** urllib.parse.quote and unquote *)

Definition ALWAYS_SAFE : bytes :=
  lit "ABCDEFGHIJKLMNOPQRSTUVWXYZabcdefghijklmnopqrstuvwxyz0123456789_.-~".

Definition is_safe (safe : bytes) (b : Z) : bool :=
  existsb (Z.eqb b) (ALWAYS_SAFE ++ safe).

Definition hex_upper (n : Z) : Z :=
  nth (Z.to_nat n) (lit "0123456789ABCDEF") 0.

(** ['%{:02X}'.format(b)] for a byte outside the safe set. *)
Definition quoter (safe : bytes) (b : Z) : str :=
  if is_safe safe b then [b]
  else [code "%"; hex_upper (b / 16); hex_upper (b mod 16)].

Definition quote_from_bytes (bs : bytes) (safe : bytes) : str :=
  match bs with
  | [] => []
  | _ => if forallb (is_safe safe) bs then utf8_decode bs
         else List.concat (map (quoter safe) bs)
  end.

(** [urllib.parse.quote(string)] with its defaults [safe='/'],
    [encoding='utf-8'], [errors='strict'].  Anything that is neither [str]
    nor [bytes] is rejected by [quote_from_bytes]. *)
Definition quote (string : pyval) : result str :=
  match string with
  | PStr [] => Ok []
  | PStr s =>
      match utf8_encode s with
      | Ok bs => Ok (quote_from_bytes bs (lit "/"))
      | Raise e => Raise e
      end
  | _ => Raise (Exn "TypeError" (lit "quote_from_bytes() expected bytes"))
  end.

Definition hex_value (c : Z) : option Z :=
  if (48 <=? c) && (c <=? 57) then Some (c - 48)
  else if (65 <=? c) && (c <=? 70) then Some (c - 55)
  else if (97 <=? c) && (c <=? 102) then Some (c - 87)
  else None.

(** [_unquote_impl]: each ['%'] followed by two hex digits becomes that byte,
    any other ['%'] stays. *)
Fixpoint unquote_to_bytes (bs : bytes) : bytes :=
  match bs with
  | [] => []
  | b :: rest =>
      if b =? code "%" then
        match rest with
        | h1 :: h2 :: rest' =>
            match hex_value h1, hex_value h2 with
            | Some a, Some c => (16 * a + c) :: unquote_to_bytes rest'
            | _, _ => b :: unquote_to_bytes rest
            end
        | _ => b :: unquote_to_bytes rest
        end
      else b :: unquote_to_bytes rest
  end.

(** The parts of [unquote]: every maximal ASCII run ([run], newest first) is
    unquoted to bytes and decoded, characters above 127 are passed through. *)
Fixpoint unquoted_parts (run : str) (s : str) : str :=
  match s with
  | [] => utf8_decode (unquote_to_bytes (rev run))
  | c :: s' =>
      if c <? 0x80 then unquoted_parts (c :: run) s'
      else utf8_decode (unquote_to_bytes (rev run)) ++ c :: unquoted_parts [] s'
  end.

(** [urllib.parse.unquote(string)] with [encoding='utf-8'],
    [errors='replace']. *)
Definition unquote (string : str) : str :=
  if negb (existsb (Z.eqb (code "%")) string) then string
  else unquoted_parts [] string.

(** ** The interpreter

    Two limits of the CPython interpreter decide what [json.loads] does with
    a document.

    The scanner enters a nested call for every array and every object it
    opens, and raises [RecursionError] when the recursion limit is used up:
    [recursion_remaining] is the number of nested calls that can still be
    entered when the scanner starts (the recursion limit, 1000 by default,
    less the frames in use).  Raising a decoder error takes calls of its own,
    the exception object being built by a call of its class, and these count
    against the same limit: with the limit close, the [RecursionError] of
    such a call comes out in place of the error.  [raise_fails n msg] tells
    whether that happens when the error [msg] is raised with [n] nested calls
    left, and then gives what follows [maximum recursion depth exceeded] in
    the message; it is left open, the interpreter deciding.

    [int()] refuses a literal of more than [sys.get_int_max_str_digits()]
    digits (4300 by default, 0 for no limit).

    Only the recursion of the scanner depends on the data.  Every other call
    of the module, and of the library functions it uses, has a fixed depth
    and is taken to have the room it needs. *)
Record interpreter : Type := Interpreter {
  recursion_remaining : nat;
  raise_fails : nat -> string -> option str;
  int_max_str_digits : nat
}.

(** ** json.loads

    The decoder of CPython's [json] module on a [str]: whitespace, the three
    literals, numbers, strings with their escapes, arrays and objects.  A
    [JSONDecodeError] carries the decoder's message without the position.
    [depth] is the number of nested calls the scanner can still enter.
    [fuel] only bounds the steps of the recursive descent: [json_loads] hands
    out more than any document uses, so [out_of_steps] is no outcome of it
    ([json_loads_steps] below). *)

Definition JSONDecodeError (msg : string) : exn := Exn "JSONDecodeError" (lit msg).

(** A [RecursionError]; [place] is what the message adds on where the limit
    was hit. *)
Definition RecursionError (place : str) : exn :=
  Exn "RecursionError" (lit "maximum recursion depth exceeded" ++ place).

(** The error of [Py_EnterRecursiveCall] in the scanner, for an ["object"]
    or an ["array"]. *)
Definition nested_too_deep (what : string) : exn :=
  RecursionError (lit " while decoding a JSON " ++ lit what ++ lit " from a unicode string").

(** What raising the decoder error [msg] ends with when [depth] nested calls
    can still be entered. *)
Definition decoder_error (py : interpreter) (depth : nat) (msg : string) : exn :=
  match raise_fails py depth msg with
  | None => JSONDecodeError msg
  | Some place => RecursionError place
  end.

(** The [ValueError] of [int()] for a literal of [digits] digits. *)
Definition int_digits_error (limit digits : nat) : exn :=
  Exn "ValueError"
    (lit "Exceeds the limit (" ++ decimal limit
       ++ lit " digits) for integer string conversion: value has " ++ decimal digits
       ++ lit " digits; use sys.set_int_max_str_digits() to increase the limit").

(** What a descent that was given too few steps ends with. *)
Definition out_of_steps : exn := Exn "OutOfSteps" [].

Definition DQUOTE : Z := 34.
Definition BACKSLASH : Z := 92.

Definition is_ws (c : Z) : bool := (c =? 32) || (c =? 9) || (c =? 10) || (c =? 13).

Fixpoint skip_ws (s : str) : str :=
  match s with
  | c :: s' => if is_ws c then skip_ws s' else s
  | [] => []
  end.

Definition is_digit (c : Z) : bool := (48 <=? c) && (c <=? 57).

Fixpoint span_digits (s : str) : str * str :=
  match s with
  | c :: s' =>
      if is_digit c then let (d, r) := span_digits s' in (c :: d, r) else ([], s)
  | [] => ([], [])
  end.

Definition int_of_digits (ds : str) : Z :=
  fold_left (fun n c => 10 * n + (c - 48)) ds 0.

(** [int(lexeme)] for the integer part matched by [NUMBER_RE]: no check is
    made up to 640 digits, above that the interpreter's limit applies. *)
Definition parse_int (py : interpreter) (lexeme : str) : result Z :=
  let (negative, ds) :=
    match lexeme with
    | c :: ds => if c =? code "-" then (true, ds) else (false, lexeme)
    | [] => (false, [])
    end in
  if ((640 <? List.length ds) && (0 <? int_max_str_digits py)
      && (int_max_str_digits py <? List.length ds))%nat
  then Raise (int_digits_error (int_max_str_digits py) (List.length ds))
  else Ok (if negative then - int_of_digits ds else int_of_digits ds).

(** [NUMBER_RE]: an optional minus, then 0 or a digit 1-9 followed by digits;
    an optional fraction (a dot and at least one digit); an optional exponent
    (e or E, an optional sign, at least one digit).  Returns the three groups
    and what follows the match. *)
Definition match_number (s : str) : option (str * str * str * str) :=
  let (sign, s0) :=
    match s with
    | c :: s' => if c =? code "-" then ([c], s') else ([], s)
    | [] => ([], s)
    end in
  let integer :=
    match s0 with
    | c :: s1 =>
        if c =? code "0" then Some (sign ++ [c], s1)
        else if is_digit c then
          let (ds, r) := span_digits s1 in Some (sign ++ c :: ds, r)
        else None
    | [] => None
    end in
  match integer with
  | None => None
  | Some (int, r) =>
      let (frac, r1) :=
        match r with
        | c :: r' =>
            if c =? code "." then
              match span_digits r' with
              | ([], _) => ([], r)
              | (ds, r'') => (c :: ds, r'')
              end
            else ([], r)
        | [] => ([], r)
        end in
      let (exp, r2) :=
        match r1 with
        | e :: r' =>
            if (e =? code "e") || (e =? code "E") then
              let (sg, r'') :=
                match r' with
                | c :: t => if (c =? code "-") || (c =? code "+") then ([c], t) else ([], r')
                | [] => ([], r')
                end in
              match span_digits r'' with
              | ([], _) => ([], r1)
              | (ds, r3) => (e :: sg ++ ds, r3)
              end
            else ([], r1)
        | [] => ([], r1)
        end in
      Some (int, frac, exp, r2)
  end.

Definition hex4 (s : str) : option (Z * str) :=
  match s with
  | a :: b :: c :: d :: rest =>
      match hex_value a, hex_value b, hex_value c, hex_value d with
      | Some a, Some b, Some c, Some d => Some (4096 * a + 256 * b + 16 * c + d, rest)
      | _, _, _, _ => None
      end
  | _ => None
  end.

Definition is_high_surrogate (c : Z) : bool := (0xD800 <=? c) && (c <=? 0xDBFF).
Definition is_low_surrogate (c : Z) : bool := (0xDC00 <=? c) && (c <=? 0xDFFF).
Definition join_surrogates (hi lo : Z) : Z :=
  0x10000 + Z.lor (Z.shiftl (Z.land hi 0x3FF) 10) (Z.land lo 0x3FF).

Definition simple_escape (c : Z) : option Z :=
  if c =? DQUOTE then Some DQUOTE
  else if c =? BACKSLASH then Some BACKSLASH
  else if c =? code "/" then Some (code "/")
  else if c =? code "b" then Some 8
  else if c =? code "f" then Some 12
  else if c =? code "n" then Some 10
  else if c =? code "r" then Some 13
  else if c =? code "t" then Some 9
  else None.

Section Decoder.

Variable py : interpreter.

(** [scanstring] in strict mode, from behind the opening quote; [acc] holds
    the characters read so far, newest first.  The four digits of a u-escape
    must be followed by at least one more character, and a high surrogate
    is joined with a low one only when seven characters follow it. *)
Fixpoint scanstring (depth fuel : nat) (acc : str) (s : str) : result (str * str) :=
  match fuel with
  | O => Raise out_of_steps
  | S fuel' =>
      match s with
      | [] => Raise (decoder_error py depth "Unterminated string starting at")
      | c :: s1 =>
          if c =? DQUOTE then Ok (rev acc, s1)
          else if c =? BACKSLASH then
            match s1 with
            | [] => Raise (decoder_error py depth "Unterminated string starting at")
            | e :: s2 =>
                if e =? code "u" then
                  match hex4 s2 with
                  | None => Raise (decoder_error py depth "Invalid \uXXXX escape")
                  | Some (_, []) => Raise (decoder_error py depth "Invalid \uXXXX escape")
                  | Some (u, s3) =>
                      if is_high_surrogate u
                         && startswith [BACKSLASH; code "u"] s3
                         && (6 <? Z.of_nat (List.length s3)) then
                        match hex4 (skipn 2 s3) with
                        | None => Raise (decoder_error py depth "Invalid \uXXXX escape")
                        | Some (u2, s4) =>
                            if is_low_surrogate u2
                            then scanstring depth fuel' (join_surrogates u u2 :: acc) s4
                            else scanstring depth fuel' (u :: acc) s3
                        end
                      else scanstring depth fuel' (u :: acc) s3
                  end
                else
                  match simple_escape e with
                  | Some x => scanstring depth fuel' (x :: acc) s2
                  | None => Raise (decoder_error py depth "Invalid \escape")
                  end
            end
          else if c <=? 0x1F then Raise (decoder_error py depth "Invalid control character at")
          else scanstring depth fuel' (c :: acc) s1
      end
  end.

Fixpoint scan_once (fuel depth : nat) (s : str) : result (pyval * str) :=
  match fuel with
  | O => Raise out_of_steps
  | S fuel' =>
      match s with
      | [] => Raise (decoder_error py depth "Expecting value")
      | c :: s' =>
          if c =? DQUOTE then
            match scanstring depth (S (List.length s')) [] s' with
            | Ok (v, r) => Ok (PStr v, r)
            | Raise e => Raise e
            end
          else if c =? code "{" then
            match depth with
            | O => Raise (nested_too_deep "object")
            | S depth' =>
                match skip_ws s' with
                | [] =>
                    Raise (decoder_error py depth'
                             "Expecting property name enclosed in double quotes")
                | c1 :: r1 =>
                    if c1 =? code "}" then Ok (PDict [], r1)
                    else parse_object_items fuel' depth' [] (c1 :: r1)
                end
            end
          else if c =? code "[" then
            match depth with
            | O => Raise (nested_too_deep "array")
            | S depth' =>
                match skip_ws s' with
                | [] => Raise (decoder_error py depth' "Expecting value")
                | c1 :: r1 =>
                    if c1 =? code "]" then Ok (PList [], r1)
                    else parse_array_items fuel' depth' [] (c1 :: r1)
                end
            end
          else if startswith (lit "null") s then Ok (PNone, skipn 4 s)
          else if startswith (lit "true") s then Ok (PBool true, skipn 4 s)
          else if startswith (lit "false") s then Ok (PBool false, skipn 5 s)
          else
            match match_number s with
            | Some (int, [], [], r) =>
                match parse_int py int with
                | Ok n => Ok (PInt n, r)
                | Raise e => Raise e
                end
            | Some (int, frac, exp, r) => Ok (PFloat (int ++ frac ++ exp), r)
            | None =>
                if startswith (lit "NaN") s then Ok (PFloat (lit "NaN"), skipn 3 s)
                else if startswith (lit "Infinity") s
                then Ok (PFloat (lit "Infinity"), skipn 8 s)
                else if startswith (lit "-Infinity") s
                then Ok (PFloat (lit "-Infinity"), skipn 9 s)
                else Raise (decoder_error py depth "Expecting value")
            end
      end
  end

with parse_array_items (fuel depth : nat) (acc : list pyval) (s : str)
  : result (pyval * str) :=
  match fuel with
  | O => Raise out_of_steps
  | S fuel' =>
      match scan_once fuel' depth s with
      | Raise e => Raise e
      | Ok (v, r) =>
          match skip_ws r with
          | c :: r1 =>
              if c =? code "]" then Ok (PList (rev (v :: acc)), r1)
              else if c =? code ","
              then parse_array_items fuel' depth (v :: acc) (skip_ws r1)
              else Raise (decoder_error py depth "Expecting ',' delimiter")
          | [] => Raise (decoder_error py depth "Expecting ',' delimiter")
          end
      end
  end

with parse_object_items (fuel depth : nat) (acc : list (str * pyval)) (s : str)
  : result (pyval * str) :=
  match fuel with
  | O => Raise out_of_steps
  | S fuel' =>
      match s with
      | [] =>
          Raise (decoder_error py depth "Expecting property name enclosed in double quotes")
      | q :: s1 =>
          if negb (q =? DQUOTE)
          then
            Raise (decoder_error py depth "Expecting property name enclosed in double quotes")
          else
            match scanstring depth (S (List.length s1)) [] s1 with
            | Raise e => Raise e
            | Ok (key, r) =>
                match skip_ws r with
                | c :: r1 =>
                    if negb (c =? code ":")
                    then Raise (decoder_error py depth "Expecting ':' delimiter")
                    else
                      match scan_once fuel' depth (skip_ws r1) with
                      | Raise e => Raise e
                      | Ok (v, r2) =>
                          match skip_ws r2 with
                          | c2 :: r3 =>
                              if c2 =? code "}"
                              then Ok (PDict (dict_set key v acc), r3)
                              else if c2 =? code ","
                              then parse_object_items fuel' depth (dict_set key v acc)
                                     (skip_ws r3)
                              else Raise (decoder_error py depth "Expecting ',' delimiter")
                          | [] => Raise (decoder_error py depth "Expecting ',' delimiter")
                          end
                      end
                | [] => Raise (decoder_error py depth "Expecting ':' delimiter")
                end
            end
      end
  end.

(** [json.loads(s)] for a [str] argument. *)
Definition json_loads (s : str) : result pyval :=
  if startswith [0xFEFF] s
  then Raise (decoder_error py (recursion_remaining py)
                "Unexpected UTF-8 BOM (decode using utf-8-sig)")
  else
    match scan_once (2 * List.length s + 2) (recursion_remaining py) (skip_ws s) with
    | Raise e => Raise e
    | Ok (obj, r) =>
        match skip_ws r with
        | [] => Ok obj
        | _ :: _ => Raise (decoder_error py (recursion_remaining py) "Extra data")
        end
    end.

End Decoder.

(** ** The module: class Financialadvisor *)

Local Open Scope py_scope.

(** Reading the local [result] before any iteration has assigned it. *)
Definition unbound_result : exn :=
  Exn "UnboundLocalError"
    (lit "cannot access local variable 'result' where it is not associated with a value").

Section Financialadvisor.

(** The world the run talks to, and the interpreter that runs it. *)
Variable W : world.
Variable py : interpreter.

(** [await c]: the call is answered by the world and logged. *)
Definition await (c : call) : M str :=
  fun h => let r := W h c in (r, [(c, r)]).

(** The f-string that builds the shell command of one delivery. *)
Definition curl_cmd (phone_number encoded_message text_belt_key : str) : str :=
  lit "curl -X POST https://textbelt.com/text --data-urlencode phone='"
    ++ phone_number ++ lit "' --data-urlencode message='"
    ++ encoded_message ++ lit "' -d key='" ++ text_belt_key ++ lit "'".

(** [dag.container().from_(..).with_exec(["sh", "-c", curl_cmd]).stdout()] *)
Definition curl_call (phone_number encoded_message text_belt_key : str) : call :=
  ContainerExec (lit "curlimages/curl:latest")
    [lit "sh"; lit "-c"; curl_cmd phone_number encoded_message text_belt_key].

(** The body of the [for] loop of [send]: one [try]/[except] statement.  It
    yields the new value of the local [result]. *)
Definition attempt (phone_number encoded_message text_belt_key : str) : M str :=
  try_except
    (result <- await (curl_call phone_number encoded_message text_belt_key) ;;
     if negb (contains (lit "success") result)
     then raise (Exn "ValueError"
                   (lit "Failed to send message to " ++ phone_number
                      ++ lit ": " ++ result))
     else ret result)
    (fun e =>
       raise (Exn "RuntimeError"
                (lit "Error sending message to " ++ phone_number
                   ++ lit ": " ++ exn_msg e))).

(** The [for] loop over [phone_numbers]; [result] is the local variable of
    that name, unbound ([None]) until the first iteration assigns it. *)
Fixpoint send_loop (phone_numbers : list str) (encoded_message text_belt_key : str)
         (result : option str) : M (option str) :=
  match phone_numbers with
  | [] => ret result
  | phone_number :: rest =>
      r <- attempt phone_number encoded_message text_belt_key ;;
      send_loop rest encoded_message text_belt_key (Some r)
  end.

(** [send] with the list of the loop made a parameter: the body of the
    source's [send] is [send_to phone_numbers]. *)
Definition send_to (phone_numbers : list str) (encoded_message : str)
           (textBelt : Secret) : M str :=
  text_belt_key <- await (Plaintext textBelt) ;;
  result <- send_loop phone_numbers encoded_message text_belt_key None ;;
  match result with
  | Some r => ret r
  | None => raise unbound_result
  end.

(** [phone_numbers = ['15162341744', '15512259418']] *)
Definition phone_numbers : list str := [lit "15162341744"; lit "15512259418"].

Definition send (encoded_message : str) (textBelt : Secret) : M str :=
  send_to phone_numbers encoded_message textBelt.

Definition run_pipeline (apiKey sheet connection hftoken openai textBelt : Secret)
           (database collection : str) : M str :=
  json_resp <- await (FetchData apiKey sheet) ;;
  new_transactions <- await (Filter json_resp connection database collection) ;;
  categorized_transactions <- await (Categorize new_transactions hftoken) ;;
  write_to_mongo <-
    await (WriteMongo categorized_transactions connection database collection) ;;
  get_data <- await (GetData connection database collection) ;;
  generate_resp <- await (Generate get_data openai connection) ;;
  loaded <- lift (json_loads py generate_resp) ;;
  resp_dict <- lift (py_get loaded (lit "advice")) ;;
  encoded_message <- lift (quote resp_dict) ;;
  send encoded_message textBelt.

End Financialadvisor.

(** ** Reading a trace *)

(** The stages of the pipeline, in the order of the source. *)
Inductive stage : Type :=
| StFetch | StFilter | StCategorize | StPersist | StRetrieve | StGenerate | StNotify.

Definition stage_of (c : call) : stage :=
  match c with
  | FetchData _ _ => StFetch
  | Filter _ _ _ _ => StFilter
  | Categorize _ _ => StCategorize
  | WriteMongo _ _ _ _ => StPersist
  | GetData _ _ _ => StRetrieve
  | Generate _ _ _ => StGenerate
  | Plaintext _ => StNotify
  | ContainerExec _ _ => StNotify
  end.

Definition stages (t : trace) : list stage := map (fun ev => stage_of (fst ev)) t.

Definition is_delivery (ev : event) : bool :=
  match fst ev with ContainerExec _ _ => true | _ => false end.

(** The delivery attempts of a trace: its container executions. *)
Definition deliveries (t : trace) : trace := filter is_delivery t.

Definition failed (ev : event) : bool :=
  match snd ev with Raise _ => true | Ok _ => false end.



Definition is_notify (ev : event) : bool :=
  match stage_of (fst ev) with StNotify => true | _ => false end.

(** An attempt counts as delivered when the provider answered and the answer
    carries the marker the loop body looks for. *)
Definition delivered (ev : event) : bool :=
  match snd ev with
  | Ok response => contains (lit "success") response
  | Raise _ => false
  end.

(** What the [except] clause of the loop body raises for a recipient. *)
Definition sending_error (phone_number detail : str) : exn :=
  Exn "RuntimeError" (lit "Error sending message to " ++ phone_number ++ lit ": " ++ detail).

(** [str(e)] of the exception the [try] block ended with. *)
Definition failure_detail (phone_number : str) (answer : result str) : str :=
  match answer with
  | Ok response => lit "Failed to send message to " ++ phone_number ++ lit ": " ++ response
  | Raise e => exn_msg e
  end.

(** Whether the [except Exception] clause handles what the [try] block of
    an undelivered attempt ended with: the [ValueError] of the body after an
    answer without the marker, or the exception of the call when its class
    derives from [Exception]. *)
Definition caught (answer : result str) : bool :=
  match answer with
  | Ok _ => true
  | Raise e => exn_is_exception e
  end.

(** What the loop body ends with for an attempt that is not delivered: the
    error of the [except] clause, or the exception of the call that the
    clause does not handle. *)
Definition surfaced (phone_number : str) (answer : result str) : exn :=
  match answer with
  | Ok _ => sending_error phone_number (failure_detail phone_number answer)
  | Raise e =>
      if exn_is_exception e
      then sending_error phone_number (failure_detail phone_number answer)
      else e
  end.

Definition is_generate (ev : event) : bool :=
  match fst ev with Generate _ _ _ => true | _ => false end.

(** The advice payloads of a run: its answered calls to the generator. *)
Definition advice_payloads (t : trace) : trace :=
  filter (fun ev => is_generate ev && negb (failed ev)) t.

(** The strings a call hands to its collaborator. *)
Definition call_inputs (c : call) : list str :=
  match c with
  | FetchData (SecretRef a) (SecretRef s) => [a; s]
  | Filter j (SecretRef c) d k => [j; c; d; k]
  | Categorize n (SecretRef t) => [n; t]
  | WriteMongo b (SecretRef c) d k => [b; c; d; k]
  | GetData (SecretRef c) d k => [c; d; k]
  | Generate g (SecretRef o) (SecretRef c) => [g; o; c]
  | Plaintext (SecretRef s) => [s]
  | ContainerExec image argv => image :: argv
  end.

(** Lines 84 and 85 of the source as one step: from the generator's response
    to the message handed to [send]. *)
Definition encode_advice (py : interpreter) (generate_resp : str) : result str :=
  match json_loads py generate_resp with
  | Raise e => Raise e
  | Ok loaded =>
      match py_get loaded (lit "advice") with
      | Raise e => Raise e
      | Ok resp_dict => quote resp_dict
      end
  end.

(** ** The runs of the loop and of the pipeline, as relations

    [loop_run] lists the ways the [for] loop of [send] can go from a history
    [h]; [pipeline_run] the ways a run of [run_pipeline] can go.  Both are
    shown below to cover every run of the code. *)

Section Runs.

Variable W : world.
Variable py : interpreter.

Section Loop.
Variables encoded_message text_belt_key : str.

Inductive loop_run : list str -> trace -> option str
                     -> result (option str) -> trace -> Prop :=
| loop_done h result :
    loop_run [] h result (Ok result) []
| loop_sent p ps h result response r d :
    W h (curl_call p encoded_message text_belt_key) = Ok response ->
    contains (lit "success") response = true ->
    loop_run ps (h ++ [(curl_call p encoded_message text_belt_key, Ok response)])
             (Some response) r d ->
    loop_run (p :: ps) h result r
             ((curl_call p encoded_message text_belt_key, Ok response) :: d)
| loop_failed p ps h result answer :
    W h (curl_call p encoded_message text_belt_key) = answer ->
    delivered (curl_call p encoded_message text_belt_key, answer) = false ->
    loop_run (p :: ps) h result
             (Raise (surfaced p answer))
             [(curl_call p encoded_message text_belt_key, answer)].
End Loop.

Section Pipeline.
Variables apiKey sheet connection hftoken openai textBelt : Secret.
Variables database collection : str.
Variable h : trace.

Definition ev_fetch (a : result str) : event := (FetchData apiKey sheet, a).
Definition ev_filter (o1 : str) (a : result str) : event :=
  (Filter o1 connection database collection, a).
Definition ev_categorize (o2 : str) (a : result str) : event :=
  (Categorize o2 hftoken, a).
Definition ev_persist (o3 : str) (a : result str) : event :=
  (WriteMongo o3 connection database collection, a).
Definition ev_retrieve (a : result str) : event :=
  (GetData connection database collection, a).
Definition ev_generate (o5 : str) (a : result str) : event :=
  (Generate o5 openai connection, a).

(** The events of the stages that completed, given their outputs. *)
Definition completed (outs : list str) : trace :=
  match outs with
  | [] => []
  | [o1] => [ev_fetch (Ok o1)]
  | [o1; o2] => [ev_fetch (Ok o1); ev_filter o1 (Ok o2)]
  | [o1; o2; o3] => [ev_fetch (Ok o1); ev_filter o1 (Ok o2); ev_categorize o2 (Ok o3)]
  | [o1; o2; o3; o4] =>
      [ev_fetch (Ok o1); ev_filter o1 (Ok o2); ev_categorize o2 (Ok o3);
       ev_persist o3 (Ok o4)]
  | [o1; o2; o3; o4; o5] =>
      [ev_fetch (Ok o1); ev_filter o1 (Ok o2); ev_categorize o2 (Ok o3);
       ev_persist o3 (Ok o4); ev_retrieve (Ok o5)]
  | o1 :: o2 :: o3 :: o4 :: o5 :: o6 :: _ =>
      [ev_fetch (Ok o1); ev_filter o1 (Ok o2); ev_categorize o2 (Ok o3);
       ev_persist o3 (Ok o4); ev_retrieve (Ok o5); ev_generate o5 (Ok o6)]
  end.

(** The call of the stage that follows the completed ones. *)
Definition next_call (outs : list str) : option call :=
  match outs with
  | [] => Some (FetchData apiKey sheet)
  | [o1] => Some (Filter o1 connection database collection)
  | [_; o2] => Some (Categorize o2 hftoken)
  | [_; _; o3] => Some (WriteMongo o3 connection database collection)
  | [_; _; _; _] => Some (GetData connection database collection)
  | [_; _; _; _; o5] => Some (Generate o5 openai connection)
  | _ => None
  end.

Inductive pipeline_run : result str -> trace -> Prop :=
| run_stage_failed outs c e :
    next_call outs = Some c ->
    W (h ++ completed outs) c = Raise e ->
    (forall i, i < List.length outs ->
       exists ci oi, nth_error (completed outs) i = Some (ci, Ok oi)
                     /\ W (h ++ firstn i (completed outs)) ci = Ok oi)%nat ->
    pipeline_run (Raise e) (completed outs ++ [(c, Raise e)])
| run_encoding_failed o1 o2 o3 o4 o5 o6 e :
    (forall i, i < 6 ->
       exists ci oi, nth_error (completed [o1; o2; o3; o4; o5; o6]) i = Some (ci, Ok oi)
                     /\ W (h ++ firstn i (completed [o1; o2; o3; o4; o5; o6])) ci = Ok oi)%nat ->
    encode_advice py o6 = Raise e ->
    pipeline_run (Raise e) (completed [o1; o2; o3; o4; o5; o6])
| run_notified o1 o2 o3 o4 o5 o6 encoded_message r d :
    (forall i, i < 6 ->
       exists ci oi, nth_error (completed [o1; o2; o3; o4; o5; o6]) i = Some (ci, Ok oi)
                     /\ W (h ++ firstn i (completed [o1; o2; o3; o4; o5; o6])) ci = Ok oi)%nat ->
    encode_advice py o6 = Ok encoded_message ->
    send W encoded_message textBelt (h ++ completed [o1; o2; o3; o4; o5; o6]) = (r, d) ->
    pipeline_run r (completed [o1; o2; o3; o4; o5; o6] ++ d).
End Pipeline.

End Runs.

(** ** Sample worlds

    Worlds for running the module on concrete inputs.  The two filter and
    categorize collaborators always answer; the ledger read returns the
    batches written so far to the same collection, one after the other; the
    other answers are chosen per example. *)

Definition secret_eqb (a b : Secret) : bool :=
  match a, b with SecretRef x, SecretRef y => str_eqb x y end.

(** The batches whose write to a collection succeeded in a history. *)
Fixpoint written (h : trace) (connection : Secret) (database collection : str)
  : list str :=
  match h with
  | [] => []
  | (WriteMongo b c d k, Ok _) :: h' =>
      if secret_eqb c connection && str_eqb d database && str_eqb k collection
      then b :: written h' connection database collection
      else written h' connection database collection
  | _ :: h' => written h' connection database collection
  end.

(** Modelled from the spec: the Ledger Store behind the [write_to_mongo] and
    [get_from_mongo] modules, whose code is not part of this module.  The
    spec gives it [Store.write(categorizedTransactions, dbRef) -> ack] and
    [Store.readHistory(dbRef) -> history] with read-after-write visibility
    within a run: a read that succeeds returns a history containing every
    batch whose write to the same place succeeded before it. *)
Definition read_after_write (W : world) : Prop :=
  forall h connection database collection history,
    W h (GetData connection database collection) = Ok history ->
    forall batch, In batch (written h connection database collection) ->
                  contains batch history = true.

Record answers : Type := Answers {
  on_fetch : result str;
  on_persist : result str;
  on_generate : result str;
  on_key : result str;
  on_first : result str;
  on_second : result str
}.

Definition sample_world (a : answers) : world :=
  fun h c =>
    match c with
    | FetchData _ _ => on_fetch a
    | Filter _ _ _ _ => Ok (lit "2024-05-01,12.50,grocer")
    | Categorize _ _ => Ok (lit "2024-05-01,12.50,grocer,food")
    | WriteMongo _ _ _ _ => on_persist a
    | GetData c d k => Ok (List.concat (written h c d k))
    | Generate _ _ _ => on_generate a
    | Plaintext _ => on_key a
    | ContainerExec _ argv =>
        if existsb (contains (lit "phone='15162341744'")) argv
        then on_first a else on_second a
    end.

(** The JSON text [{"advice": "..."}] around an advice without escapes. *)
Definition advice_envelope (advice : str) : str :=
  lit "{" ++ [DQUOTE] ++ lit "advice" ++ [DQUOTE] ++ lit ": "
    ++ [DQUOTE] ++ advice ++ [DQUOTE] ++ lit "}".

(** The provider body [{"success": false}]. *)
Definition body_success_false : str :=
  lit "{" ++ [DQUOTE] ++ lit "success" ++ [DQUOTE] ++ lit ": false}".

(** The provider body [{"success": true}]. *)
Definition body_success_true : str :=
  lit "{" ++ [DQUOTE] ++ lit "success" ++ [DQUOTE] ++ lit ": true}".

Definition all_well : answers :=
  {| on_fetch := Ok (lit "date,amount,description");
     on_persist := Ok (lit "inserted 1");
     on_generate := Ok (advice_envelope (lit "Spend less on food"));
     on_key := Ok (lit "textbelt-key");
     on_first := Ok body_success_true;
     on_second := Ok body_success_true |}.

Definition with_fetch (r : result str) (a : answers) : answers :=
  {| on_fetch := r; on_persist := on_persist a; on_generate := on_generate a;
     on_key := on_key a; on_first := on_first a; on_second := on_second a |}.


Definition with_generate (r : result str) (a : answers) : answers :=
  {| on_fetch := on_fetch a; on_persist := on_persist a; on_generate := r;
     on_key := on_key a; on_first := on_first a; on_second := on_second a |}.

Definition with_first (r : result str) (a : answers) : answers :=
  {| on_fetch := on_fetch a; on_persist := on_persist a; on_generate := on_generate a;
     on_key := on_key a; on_first := r; on_second := on_second a |}.

(** An interpreter with the default limits, a tenth of the recursion limit
    being in use when the decoder starts and the errors of the samples
    being raised far from it. *)
Definition sample_interpreter : interpreter :=
  {| recursion_remaining := 900;
     raise_fails := fun _ _ => None;
     int_max_str_digits := 4300 |}.

(** The arguments of the sample runs. *)
Definition API_KEY : Secret := SecretRef (lit "API_KEY").
Definition SHEET_ID : Secret := SecretRef (lit "SHEET_ID").
Definition DB_CONNECTION : Secret := SecretRef (lit "DB_CONNECTION").
Definition HF_TOKEN : Secret := SecretRef (lit "HF_TOKEN").
Definition OPENAI_KEY : Secret := SecretRef (lit "OPENAI_KEY").
Definition TEXTBELT_KEY : Secret := SecretRef (lit "TEXTBELT_KEY").

Definition sample_run (a : answers) : result str * trace :=
  run_pipeline (sample_world a) sample_interpreter API_KEY SHEET_ID DB_CONNECTION
    HF_TOKEN OPENAI_KEY TEXTBELT_KEY (lit "financial_data") (lit "transactions") [].

Definition sample_send (a : answers) (encoded_message : str) : result str * trace :=
  send (sample_world a) encoded_message TEXTBELT_KEY [].


(** ** Further notions *)

(** The characters an encoded message is made of: the safe ones and the
    percent sign. *)
Definition is_transport_char (c : Z) : bool :=
  is_safe (lit "/") c || (c =? code "%").

(** A character a JSON string literal holds as it is: no quote, no
    backslash, no control character. *)
Definition is_plain (c : Z) : bool :=
  negb (c =? DQUOTE) && negb (c =? BACKSLASH) && negb (c <=? 0x1F).

(** The strings directly inside a value are well formed. *)
Definition str_value_wf (v : pyval) : Prop :=
  match v with
  | PStr s => wf_str s
  | _ => True
  end.

(** A step of the descent that did not run out of steps, and whose rest, if
    it read a value, is shorter than [n]. *)
Definition steps_ok {A : Type} (n : nat) (x : result (A * str)) : Prop :=
  match x with
  | Ok (_, r) => (List.length r < n)%nat
  | Raise e => exn_class e <> "OutOfSteps"%string
  end.

Definition is_persist (ev : event) : bool :=
  match fst ev with WriteMongo _ _ _ _ => true | _ => false end.

Definition is_key_lookup (ev : event) : bool :=
  match fst ev with Plaintext _ => true | _ => false end.

(** The outputs of the six stages before the notifier, the message, the key
    and the two provider responses of a run in which nothing went wrong. *)
Definition complete_run (apiKey sheet connection hftoken openai textBelt : Secret)
           (database collection : str)
           (o1 o2 o3 o4 o5 o6 encoded_message key r1 r2 : str) : trace :=
  [(FetchData apiKey sheet, Ok o1);
   (Filter o1 connection database collection, Ok o2);
   (Categorize o2 hftoken, Ok o3);
   (WriteMongo o3 connection database collection, Ok o4);
   (GetData connection database collection, Ok o5);
   (Generate o5 openai connection, Ok o6);
   (Plaintext textBelt, Ok key);
   (curl_call (lit "15162341744") encoded_message key, Ok r1);
   (curl_call (lit "15512259418") encoded_message key, Ok r2)].

(** * Properties *)

Arguments lit : simpl never.

(** ** Strings *)

Lemma str_eqb_eq (a b : str) : str_eqb a b = true <-> a = b.
Proof.
  revert b; induction a as [|x a IH]; intros [|y b]; simpl; split; intro H;
    try reflexivity; try discriminate.
  - apply andb_true_iff in H as [Hx Hr]. apply Z.eqb_eq in Hx. apply IH in Hr.
    now subst.
  - injection H as -> ->. apply andb_true_iff; split.
    + apply Z.eqb_refl.
    + now apply IH.
Qed.

Lemma startswith_spec (p s : str) :
  startswith p s = true <-> exists post, s = p ++ post.
Proof.
  revert s; induction p as [|x p IH]; intros s; simpl.
  - split; [intros _; now exists s | reflexivity].
  - destruct s as [|y s].
    + split; [discriminate | intros [post H]; discriminate].
    + rewrite andb_true_iff, Z.eqb_eq, IH. split.
      * intros [-> [post ->]]. now exists post.
      * intros [post H]. injection H as -> ->. split; [reflexivity | now exists post].
Qed.

(** [contains] is the occurrence of a contiguous run. *)
Lemma contains_spec (p s : str) :
  contains p s = true <-> exists pre post, s = pre ++ p ++ post.
Proof.
  induction s as [|y s IH].
  - simpl. rewrite orb_false_r, startswith_spec. split.
    + intros [post H]. now exists [], post.
    + intros [pre [post H]]. destruct pre as [|z pre]; [|discriminate].
      now exists post.
  - cbn [contains]. rewrite orb_true_iff, startswith_spec, IH. split.
    + intros [[post H] | [pre [post H]]].
      * now exists [], post.
      * exists (y :: pre), post. simpl. now rewrite H.
    + intros [pre [post H]]. destruct pre as [|z pre].
      * left. now exists post.
      * right. simpl in H. injection H as _ H. now exists pre, post.
Qed.

Lemma contains_app_r (p a b : str) : contains p b = true -> contains p (a ++ b) = true.
Proof.
  rewrite !contains_spec. intros [pre [post ->]].
  exists (a ++ pre), post. now rewrite <- app_assoc.
Qed.

Lemma contains_app_l (p a b : str) : contains p a = true -> contains p (a ++ b) = true.
Proof.
  rewrite !contains_spec. intros [pre [post ->]].
  exists pre, (post ++ b). now rewrite <- !app_assoc.
Qed.

Lemma contains_refl (p : str) : contains p p = true.
Proof. apply contains_spec. exists [], []. simpl. now rewrite app_nil_r. Qed.

Lemma contains_concat (b : str) (l : list str) :
  In b l -> contains b (List.concat l) = true.
Proof.
  induction l as [|x l IH]; simpl; [contradiction|].
  intros [-> | Hin].
  - apply contains_app_l, contains_refl.
  - apply contains_app_r. now apply IH.
Qed.

Arguments contains : simpl never.

(** ** The loop body *)

Section SendFacts.

Variable W : world.

Lemma attempt_eq (p m k : str) (h : trace) :
  attempt W p m k h =
  (match W h (curl_call p m k) with
   | Ok response =>
       if contains (lit "success") response then Ok response
       else Raise (surfaced p (Ok response))
   | Raise e => Raise (surfaced p (Raise e))
   end,
   [(curl_call p m k, W h (curl_call p m k))]).
Proof.
  unfold attempt, try_except, bind, await, raise, ret, surfaced, sending_error,
    failure_detail.
  destruct (W h (curl_call p m k)) as [response|e]; cbn [fst snd app].
  - destruct (contains (lit "success") response); reflexivity.
  - destruct (exn_is_exception e); reflexivity.
Qed.

(** Every run of the [for] loop is one of the runs of [loop_run]. *)
Lemma send_loop_run (m k : str) (ps : list str) :
  forall h result,
    loop_run W m k ps h result
             (fst (send_loop W ps m k result h)) (snd (send_loop W ps m k result h)).
Proof.
  induction ps as [|p ps IH]; intros h result.
  - simpl. constructor.
  - cbn [send_loop]. unfold bind. rewrite attempt_eq.
    destruct (W h (curl_call p m k)) as [response|e] eqn:HW.
    + destruct (contains (lit "success") response) eqn:Hc.
      * specialize (IH (h ++ [(curl_call p m k, Ok response)]) (Some response)).
        destruct (send_loop W ps m k (Some response)
                    (h ++ [(curl_call p m k, Ok response)])) as [r d].
        cbn [fst snd app] in *. now apply loop_sent.
      * cbn [fst snd]. apply (loop_failed W m k p ps h result (Ok response)); assumption.
    + cbn [fst snd]. apply (loop_failed W m k p ps h result (Raise e)); [assumption|reflexivity].
Qed.

End SendFacts.

(** ** What a run of the loop looks like *)

Section LoopFacts.

Variable W : world.
Variables m k : str.

Lemma loop_run_calls ps h result r d :
  loop_run W m k ps h result r d ->
  (List.length d <= List.length ps)%nat
  /\ map fst d = map (fun p => curl_call p m k) (firstn (List.length d) ps).
Proof.
  induction 1 as [h result | p ps h result response r d HW Hc Hrun [IHlen IHcalls]
                 | p ps h result answer HW Hd].
  - split; [apply Nat.le_refl | reflexivity].
  - cbn [List.length map firstn fst]. split; [lia | now rewrite IHcalls].
  - cbn [List.length map firstn fst]. split; [lia | reflexivity].
Qed.

Lemma loop_run_deliveries ps h result r d :
  loop_run W m k ps h result r d -> deliveries d = d.
Proof.
  induction 1 as [| p ps h result response r d HW Hc Hrun IH |]; try reflexivity.
  unfold deliveries in *. cbn [filter is_delivery fst curl_call]. now rewrite IH.
Qed.

(** The loop ends normally only after a delivered attempt for every
    recipient, and then [result] holds the response of the last one. *)
Lemma loop_run_ok ps h result result' d :
  loop_run W m k ps h result (Ok result') d ->
  List.length d = List.length ps
  /\ forallb delivered d = true
  /\ match ps with
     | [] => result' = result
     | _ :: _ =>
         exists ps0 p_last d0 response,
           ps = ps0 ++ [p_last]
           /\ d = d0 ++ [(curl_call p_last m k, Ok response)]
           /\ result' = Some response
     end.
Proof.
  remember (Ok result') as r eqn:Hr. intros Hrun. revert result' Hr.
  induction Hrun as [h result | p ps h result response r d HW Hc Hrun IH
                    | p ps h result answer HW Hd]; intros result' Hr.
  - injection Hr as ->. repeat split; reflexivity.
  - destruct (IH result' Hr) as [Hlen [Hall Hlast]].
    split; [cbn [List.length]; now rewrite Hlen|].
    split; [cbn [forallb]; unfold delivered at 1; cbn [snd]; now rewrite Hc, Hall|].
    destruct ps as [|p' ps'].
    + destruct d as [|ev d]; [|discriminate].
      exists [], p, [], response. now subst.
    + destruct Hlast as [ps0 [p_last [d0 [resp' [Hps [Hd ->]]]]]].
      exists (p :: ps0), p_last, ((curl_call p m k, Ok response) :: d0), resp'.
      rewrite Hps, Hd. repeat split; reflexivity.
  - discriminate.
Qed.

(** The loop ends with an exception exactly at the first attempt that is
    not delivered: the attempts before it were delivered, it is the last
    event, and the exception is the one its loop body ends with. *)
Lemma loop_run_raise ps h result e d :
  loop_run W m k ps h result (Raise e) d ->
  exists d0 p answer,
    d = d0 ++ [(curl_call p m k, answer)]
    /\ forallb delivered d0 = true
    /\ nth_error ps (List.length d0) = Some p
    /\ delivered (curl_call p m k, answer) = false
    /\ e = surfaced p answer.
Proof.
  remember (Raise e) as r eqn:Hr. intros Hrun. revert e Hr.
  induction Hrun as [h result | p ps h result response r d HW Hc Hrun IH
                    | p ps h result answer HW Hd]; intros e Hr.
  - discriminate.
  - destruct (IH e Hr) as [d0 [p' [answer [Hd [Hall [Hnth [Hnot He]]]]]]].
    exists ((curl_call p m k, Ok response) :: d0), p', answer.
    rewrite Hd. repeat split; try assumption.
    cbn [forallb]. unfold delivered at 1. cbn [snd]. now rewrite Hc, Hall.
  - injection Hr as <-. exists [], p, answer. repeat split; assumption.
Qed.


End LoopFacts.

(** ** send *)

Section SendTheorems.

Variable W : world.

Lemma send_to_eq (ps : list str) (m : str) (tb : Secret) (h : trace) :
  send_to W ps m tb h =
  match W h (Plaintext tb) with
  | Raise e => (Raise e, [(Plaintext tb, Raise e)])
  | Ok key =>
      (match fst (send_loop W ps m key None (h ++ [(Plaintext tb, Ok key)])) with
       | Ok (Some r) => Ok r
       | Ok None => Raise unbound_result
       | Raise e => Raise e
       end,
       (Plaintext tb, Ok key)
         :: snd (send_loop W ps m key None (h ++ [(Plaintext tb, Ok key)])))
  end.
Proof.
  unfold send_to, bind, await, ret, raise.
  destruct (W h (Plaintext tb)) as [key|e]; [|reflexivity].
  destruct (send_loop W ps m key None (h ++ [(Plaintext tb, Ok key)])) as [[[r|]|e] d];
    cbn [fst snd app]; now rewrite ?app_nil_r.
Qed.

(** The delivery attempts of [send] are the events of its loop. *)
Lemma send_to_deliveries ps m tb h key :
  W h (Plaintext tb) = Ok key ->
  deliveries (snd (send_to W ps m tb h))
  = snd (send_loop W ps m key None (h ++ [(Plaintext tb, Ok key)])).
Proof.
  intros Hkey. rewrite send_to_eq, Hkey. cbn [snd].
  unfold deliveries. cbn [filter is_delivery fst].
  exact (loop_run_deliveries W m key _ _ _ _ _ (send_loop_run W m key ps _ None)).
Qed.

Lemma send_to_no_key ps m tb h e :
  W h (Plaintext tb) = Raise e ->
  send_to W ps m tb h = (Raise e, [(Plaintext tb, Raise e)]).
Proof. intros Hkey. now rewrite send_to_eq, Hkey. Qed.

(** The three ways [send] can end once the key is resolved. *)
Lemma send_to_outcome ps m tb h key :
  W h (Plaintext tb) = Ok key ->
  let r := fst (send_to W ps m tb h) in
  let d := deliveries (snd (send_to W ps m tb h)) in
  (ps = [] /\ d = [] /\ r = Raise unbound_result)
  \/ (exists ps0 p_last d0 response,
        ps = ps0 ++ [p_last]
        /\ d = d0 ++ [(curl_call p_last m key, Ok response)]
        /\ List.length d = List.length ps
        /\ forallb delivered d = true
        /\ r = Ok response)
  \/ (exists d0 p answer,
        d = d0 ++ [(curl_call p m key, answer)]
        /\ forallb delivered d0 = true
        /\ nth_error ps (List.length d0) = Some p
        /\ delivered (curl_call p m key, answer) = false
        /\ r = Raise (surfaced p answer)).
Proof.
  intros Hkey r d. subst r d. rewrite (send_to_deliveries _ _ _ _ _ Hkey).
  rewrite send_to_eq, Hkey. cbn [fst].
  pose proof (send_loop_run W m key ps (h ++ [(Plaintext tb, Ok key)]) None) as Hrun.
  destruct (send_loop W ps m key None (h ++ [(Plaintext tb, Ok key)])) as [[res|e] d].
  - cbn [fst snd] in *.
    destruct (loop_run_ok W m key _ _ _ _ _ Hrun) as [Hlen [Hall Hlast]].
    destruct ps as [|p ps].
    + left. subst res. destruct d; [|discriminate]. repeat split; reflexivity.
    + right; left. destruct Hlast as [ps0 [p_last [d0 [response [Hps [Hd ->]]]]]].
      exists ps0, p_last, d0, response. repeat split; assumption.
  - cbn [fst snd] in *. right; right.
    destruct (loop_run_raise W m key _ _ _ _ _ Hrun) as [d0 [p [a [Hd [Hall [Hn [Hf ->]]]]]]].
    exists d0, p, a. repeat split; assumption.
Qed.

End SendTheorems.

Lemma surfaced_caught (p : str) (a : result str) :
  caught a = true -> surfaced p a = sending_error p (failure_detail p a).
Proof. destruct a as [v|e]; cbn [caught surfaced]; [reflexivity|]. now intros ->. Qed.

Lemma surfaced_escaped (p : str) (a : result str) :
  caught a = false -> a = Raise (surfaced p a).
Proof. destruct a as [v|e]; cbn [caught surfaced]; [discriminate|]. now intros ->. Qed.

Lemma forallb_removelast {A} (f : A -> bool) (l : list A) (x : A) :
  forallb f l = true -> forallb f (removelast (l ++ [x])) = true.
Proof. now rewrite removelast_last. Qed.

(** [H] says that all of [l ++ [x]] passes a test that [x] fails by [Hx]. *)
Ltac last_fails H Hx :=
  rewrite forallb_app in H; cbn [forallb] in H;
  rewrite Hx, andb_false_r in H; discriminate H.

(** C9.  The loop body takes a provider response for a successful delivery
    exactly when the text [success] occurs somewhere in the stdout of the
    curl command, and raises otherwise; so the body [{"success": false}],
    which reports a failure, counts as delivered and raises nothing. *)
Theorem success_marker_decides_delivery
        (W : world) (p m k : str) (h : trace) (response : str) :
  W h (curl_call p m k) = Ok response ->
  (fst (attempt W p m k h) = Ok response
   <-> exists pre post, response = pre ++ lit "success" ++ post)
  /\ ((exists e, fst (attempt W p m k h) = Raise e)
      <-> ~ exists pre post, response = pre ++ lit "success" ++ post)
  /\ (response = body_success_false -> fst (attempt W p m k h) = Ok body_success_false).
Proof.
  intros HW. rewrite attempt_eq, HW. cbn [fst].
  rewrite <- contains_spec.
  destruct (contains (lit "success") response) eqn:Hc.
  - split; [split; reflexivity|]. split.
    + split; [intros [e He]; discriminate | intros Hn; now contradiction Hn].
    + intros ->. reflexivity.
  - split; [split; discriminate|]. split.
    + split; [intros _ Habs; discriminate | intros _; eexists; reflexivity].
    + intros ->. vm_compute in Hc. discriminate.
Qed.

Lemma success_marker_decides_delivery_witness :
  fst (attempt (sample_world (with_first (Ok body_success_false) all_well))
         (lit "15162341744") (lit "Spend%20less") (lit "textbelt-key") [])
  = Ok body_success_false.
Proof.
  apply (success_marker_decides_delivery
           (sample_world (with_first (Ok body_success_false) all_well))
           (lit "15162341744") (lit "Spend%20less") (lit "textbelt-key") []
           body_success_false); reflexivity.
Defined.

(** C2, as the code has it.  With the key resolved, [send] over a list of N
    recipients attempts them in list order and stops at the first attempt
    that is not delivered: every attempt before the last one made was
    delivered, and N attempts are made when all are delivered.  An
    undelivered attempt is the last one, and decides the outcome of [send]:
    the [RuntimeError] built for that recipient when the [except Exception]
    clause handles what the attempt ended with, the exception of the call
    itself when its class lies outside [Exception].  A delivered last attempt
    gives its response as the value [send] returns. *)
Theorem send_attempts_until_first_failure
        (W : world) (ps : list str) (m : str) (tb : Secret) (h : trace) (key : str) :
  W h (Plaintext tb) = Ok key ->
  let r := fst (send_to W ps m tb h) in
  let d := deliveries (snd (send_to W ps m tb h)) in
  (List.length d <= List.length ps)%nat
  /\ map fst d = map (fun p => curl_call p m key) (firstn (List.length d) ps)
  /\ forallb delivered (removelast d) = true
  /\ (forallb delivered d = true -> List.length d = List.length ps)
  /\ (forall d0 c a,
        d = d0 ++ [(c, a)] -> delivered (c, a) = false ->
        exists p, nth_error ps (List.length d0) = Some p
                  /\ c = curl_call p m key
                  /\ (caught a = true ->
                      r = Raise (sending_error p (failure_detail p a)))
                  /\ (forall e, a = Raise e -> exn_is_exception e = false ->
                                r = Raise e))
  /\ (forall d0 c a,
        d = d0 ++ [(c, a)] -> delivered (c, a) = true ->
        List.length d = List.length ps /\ r = a).
Proof.
  intros Hkey.
  pose proof (send_to_outcome W ps m tb h key Hkey) as Hout.
  pose proof (send_to_deliveries W ps m tb h key Hkey) as Hdel.
  pose proof (send_loop_run W m key ps (h ++ [(Plaintext tb, Ok key)]) None) as Hrun.
  apply loop_run_calls in Hrun. rewrite <- Hdel in Hrun. destruct Hrun as [Hlen Hcalls].
  cbv zeta in Hout |- *.
  set (r := fst (send_to W ps m tb h)) in *.
  set (d := deliveries (snd (send_to W ps m tb h))) in *.
  clearbody r d. clear Hdel.
  split; [exact Hlen|]. split; [exact Hcalls|].
  destruct Hout as [[Hps [Hd Hr]]
                   | [[ps0 [pl [d0 [resp [Hps [Hd [Hl [Hall Hr]]]]]]]]
                     | [d0 [p [a [Hd [Hall [Hn [Hf Hr]]]]]]]]].
  - rewrite Hd. repeat split; try reflexivity.
    + intros _. now rewrite Hps.
    + intros d0 c a Habs. now destruct d0.
    + destruct d0; discriminate.
    + destruct d0; discriminate.
  - split.
    { rewrite Hd in Hall |- *. rewrite removelast_last.
      rewrite forallb_app in Hall. now apply andb_true_iff in Hall as [Hall _]. }
    split; [intros _; exact Hl|].
    split.
    { intros d1 c a Hd1 Hf. rewrite Hd1 in Hall. last_fails Hall Hf. }
    intros d1 c a Hd1 _. split; [exact Hl|].
    rewrite Hd in Hd1. apply app_inj_tail in Hd1 as [_ Heq].
    injection Heq as _ <-. exact Hr.
  - split; [rewrite Hd; now apply forallb_removelast|].
    split.
    { intros Habs. rewrite Hd in Habs. last_fails Habs Hf. }
    split.
    { intros d1 c a' Hd1 Hf'. rewrite Hd in Hd1.
      apply app_inj_tail in Hd1 as [-> Heq]. injection Heq as <- <-.
      exists p. split; [exact Hn|]. split; [reflexivity|]. split.
      - intros Hc. now rewrite Hr, (surfaced_caught p a Hc).
      - intros e -> He. rewrite Hr. unfold surfaced. now rewrite He. }
    intros d1 c a' Hd1 Hd'. rewrite Hd in Hd1.
    apply app_inj_tail in Hd1 as [_ Heq]. injection Heq as <- <-.
    rewrite Hf in Hd'. discriminate Hd'.
Qed.

Lemma send_attempts_until_first_failure_witness :
  fst (sample_send (with_first (Raise (Exn "ExecError" (lit "exit code 6"))) all_well)
         (lit "Spend%20less"))
  = Raise (sending_error (lit "15162341744") (lit "exit code 6")).
Proof.
  destruct (proj1 (proj2 (proj2 (proj2 (proj2
              (send_attempts_until_first_failure
                 (sample_world
                    (with_first (Raise (Exn "ExecError" (lit "exit code 6"))) all_well))
                 phone_numbers (lit "Spend%20less") TEXTBELT_KEY []
                 (lit "textbelt-key") eq_refl)))))
              [] (curl_call (lit "15162341744") (lit "Spend%20less") (lit "textbelt-key"))
              (Raise (Exn "ExecError" (lit "exit code 6"))) eq_refl eq_refl)
    as [p [Hp [_ [Hcaught _]]]].
  injection Hp as <-. exact (Hcaught eq_refl).
Defined.

(** C2, as stated, fails: when the container of the first recipient fails,
    one attempt is made for a list of two, and the second recipient is never
    attempted. *)
Lemma first_failure_ends_the_broadcast :
  let run := sample_send
               (with_first (Raise (Exn "ExecError" (lit "exit code 6"))) all_well)
               (lit "Spend%20less") in
  List.length phone_numbers = 2%nat
  /\ List.length (deliveries (snd run)) = 1%nat
  /\ List.length (deliveries (snd run)) <> List.length phone_numbers.
Proof. vm_compute. repeat split. discriminate. Qed.

(** C3, as the code has it.  With the key resolved and a recipient to send
    to, [send] raises exactly when some attempt was not delivered; what it
    raises belongs to the first such recipient in iteration order, whose
    attempt is the last one made, so no later recipient is reached.  It is
    the [RuntimeError] built for that recipient when the [except Exception]
    clause handles what the attempt ended with, and otherwise the exception
    the call was answered with. *)
Theorem send_raises_iff_an_attempt_failed
        (W : world) (ps : list str) (m : str) (tb : Secret) (h : trace) (key : str) :
  W h (Plaintext tb) = Ok key ->
  ps <> [] ->
  let r := fst (send_to W ps m tb h) in
  let d := deliveries (snd (send_to W ps m tb h)) in
  ((exists e, r = Raise e) <-> forallb delivered d = false)
  /\ (forall e, r = Raise e ->
        exists d0 p answer,
          d = d0 ++ [(curl_call p m key, answer)]
          /\ forallb delivered d0 = true
          /\ nth_error ps (List.length d0) = Some p
          /\ delivered (curl_call p m key, answer) = false
          /\ (if caught answer
              then e = sending_error p (failure_detail p answer)
              else answer = Raise e)).
Proof.
  intros Hkey Hps.
  pose proof (send_to_outcome W ps m tb h key Hkey) as Hout.
  cbv zeta in Hout |- *.
  set (r := fst (send_to W ps m tb h)) in *.
  set (d := deliveries (snd (send_to W ps m tb h))) in *.
  clearbody r d.
  destruct Hout as [[Hnil _]
                   | [[ps0 [pl [d0 [resp [_ [Hd [Hl [Hall Hr]]]]]]]]
                     | [d0 [p [a [Hd [Hall [Hn [Hf Hr]]]]]]]]].
  - contradiction.
  - split.
    + split.
      * intros [e He]. rewrite Hr in He. discriminate.
      * intros Habs. rewrite Hall in Habs. discriminate.
    + intros e He. rewrite Hr in He. discriminate.
  - split.
    + split.
      * intros _. rewrite Hd, forallb_app. cbn [forallb].
        now rewrite Hf, andb_false_r.
      * intros _. rewrite Hr. eexists. reflexivity.
    + intros e He. rewrite Hr in He. injection He as <-.
      exists d0, p, a. repeat split; try assumption.
      destruct (caught a) eqn:Hc.
      * now apply surfaced_caught.
      * now apply surfaced_escaped.
Qed.

Lemma send_raises_iff_an_attempt_failed_witness :
  (exists e, fst (sample_send (with_first (Ok (lit "quota exceeded")) all_well)
                    (lit "Spend%20less")) = Raise e)
  <-> forallb delivered
        (deliveries (snd (sample_send (with_first (Ok (lit "quota exceeded")) all_well)
                            (lit "Spend%20less")))) = false.
Proof.
  refine (proj1 (send_raises_iff_an_attempt_failed
                   (sample_world (with_first (Ok (lit "quota exceeded")) all_well))
                   phone_numbers (lit "Spend%20less") TEXTBELT_KEY []
                   (lit "textbelt-key") eq_refl _)).
  discriminate.
Defined.

(** C3, as stated, fails: the first recipient's attempt is rejected, [send]
    raises the error of that first recipient, and the last recipient, whose
    attempt is said to decide, appears in no event of the run. *)
Lemma raised_for_the_first_recipient :
  let run := sample_send (with_first (Ok (lit "quota exceeded")) all_well)
               (lit "Spend%20less") in
  fst run = Raise (Exn "RuntimeError"
                     (lit "Error sending message to 15162341744: Failed to send message to 15162341744: quota exceeded"))
  /\ forallb (fun ev => negb (existsb (contains (lit "15512259418")) (call_inputs (fst ev))))
             (snd run) = true.
Proof. vm_compute. split; reflexivity. Qed.

(** A call that is cancelled is not a failed delivery in the eyes of the
    [except] clause: [asyncio.CancelledError] derives from [BaseException]
    alone and leaves [send] as it is, with no recipient named. *)
Example cancelled_attempt_is_not_wrapped :
  let cancelled := BaseExn "CancelledError" [] in
  let run := sample_send (with_first (Raise cancelled) all_well) (lit "Spend%20less") in
  fst run = Raise cancelled
  /\ map fst (deliveries (snd run))
     = [curl_call (lit "15162341744") (lit "Spend%20less") (lit "textbelt-key")].
Proof. vm_compute. split; reflexivity. Qed.

(** The call of the module documentation's example for [send], whose
    caller means the numbers +1234567890 and +0987654321: both attempts go
    to the numbers of the body, and no event mentions the caller's. *)
Example send_ignores_the_documented_recipients :
  let run := sample_send all_well (lit "Your%20financial%20advice%20here") in
  map fst (deliveries (snd run))
  = [curl_call (lit "15162341744") (lit "Your%20financial%20advice%20here")
       (lit "textbelt-key");
     curl_call (lit "15512259418") (lit "Your%20financial%20advice%20here")
       (lit "textbelt-key")]
  /\ existsb (fun ev => existsb (contains (lit "1234567890")) (call_inputs (fst ev))
                        || existsb (contains (lit "0987654321")) (call_inputs (fst ev)))
             (snd run) = false.
Proof. vm_compute. split; reflexivity. Qed.

(** C8 on the code.  Whatever the caller passes, the attempts of [send] go
    to the two numbers written in its body, in that order: the recipients
    are no argument of [send]. *)
Theorem send_recipients_are_hard_coded
        (W : world) (encoded_message : str) (textBelt : Secret) (h : trace) :
  exists key n,
    map fst (deliveries (snd (send W encoded_message textBelt h)))
    = map (fun p => curl_call p encoded_message key)
          (firstn n [lit "15162341744"; lit "15512259418"]).
Proof.
  unfold send. destruct (W h (Plaintext textBelt)) as [key|e] eqn:Hkey.
  - exists key. eexists.
    rewrite (send_to_deliveries W _ _ _ _ key Hkey).
    exact (proj2 (loop_run_calls W encoded_message key _ _ _ _ _
                    (send_loop_run W encoded_message key phone_numbers _ None))).
  - exists [], 0%nat. now rewrite (send_to_no_key W _ _ _ _ e Hkey).
Qed.

(** ** run_pipeline *)

Section PipelineFacts.

Variable W : world.
Variable py : interpreter.
Variables apiKey sheet connection hftoken openai textBelt : Secret.
Variables database collection : str.

Lemma bind_await {A} (c : call) (k : str -> M A) (h : trace) :
  bind (await W c) k h =
  match W h c with
  | Ok a => (fst (k a (h ++ [(c, Ok a)])), (c, Ok a) :: snd (k a (h ++ [(c, Ok a)])))
  | Raise e => (Raise e, [(c, Raise e)])
  end.
Proof.
  unfold bind, await. destruct (W h c) as [a|e]; [|reflexivity].
  destruct (k a (h ++ [(c, Ok a)])); reflexivity.
Qed.

Lemma encode_advice_eq (o6 : str) (h : trace) (k : str -> M str) :
  bind (lift (json_loads py o6))
    (fun loaded => bind (lift (py_get loaded (lit "advice")))
       (fun resp_dict => bind (lift (quote resp_dict)) k)) h
  = match encode_advice py o6 with
    | Ok m => k m h
    | Raise e => (Raise e, [])
    end.
Proof.
  unfold bind, lift, encode_advice.
  destruct (json_loads py o6) as [loaded|e]; [|reflexivity].
  destruct (py_get loaded (lit "advice")) as [a|e]; [|reflexivity].
  destruct (quote a) as [x|e]; [|reflexivity].
  rewrite !app_nil_r. cbn [app]. destruct (k x h); reflexivity.
Qed.

Ltac flatten_history :=
  repeat match goal with
         | H : context [(_ ++ _) ++ _] |- _ => rewrite <- app_assoc in H; cbn [app] in H
         end;
  rewrite <- ?app_assoc; cbn [app].

Ltac answered :=
  let i := fresh "i" in
  let Hi := fresh "Hi" in
  intros i Hi;
  repeat (destruct i as [|i];
          [eexists; eexists; split;
           [reflexivity | cbn [firstn completed]; rewrite ?app_nil_r; eassumption]|]);
  cbn [List.length] in Hi; lia.

(** Every run of [run_pipeline] is one of the runs of [pipeline_run]. *)
Lemma run_pipeline_run (h : trace) :
  pipeline_run W py apiKey sheet connection hftoken openai textBelt database collection h
    (fst (run_pipeline W py apiKey sheet connection hftoken openai textBelt
            database collection h))
    (snd (run_pipeline W py apiKey sheet connection hftoken openai textBelt
            database collection h)).
Proof.
  unfold run_pipeline.
  rewrite bind_await.
  destruct (W h (FetchData apiKey sheet)) as [o1|e] eqn:H1; cbn [fst snd].
  2: { apply (run_stage_failed _ _ _ _ _ _ _ _ _ _ _ [] _ e eq_refl); [now rewrite app_nil_r | answered]. }
  rewrite bind_await.
  destruct (W _ (Filter o1 connection database collection)) as [o2|e] eqn:H2; cbn [fst snd].
  2: { apply (run_stage_failed _ _ _ _ _ _ _ _ _ _ _ [o1] _ e eq_refl); [exact H2 | answered]. }
  rewrite bind_await.
  destruct (W _ (Categorize o2 hftoken)) as [o3|e] eqn:H3; cbn [fst snd].
  2: { flatten_history.
       apply (run_stage_failed _ _ _ _ _ _ _ _ _ _ _ [o1; o2] _ e eq_refl); [exact H3 | answered]. }
  rewrite bind_await.
  destruct (W _ (WriteMongo o3 connection database collection)) as [o4|e] eqn:H4;
    cbn [fst snd].
  2: { flatten_history.
       apply (run_stage_failed _ _ _ _ _ _ _ _ _ _ _ [o1; o2; o3] _ e eq_refl); [exact H4 | answered]. }
  rewrite bind_await.
  destruct (W _ (GetData connection database collection)) as [o5|e] eqn:H5;
    cbn [fst snd].
  2: { flatten_history.
       apply (run_stage_failed _ _ _ _ _ _ _ _ _ _ _ [o1; o2; o3; o4] _ e eq_refl); [exact H5 | answered]. }
  rewrite bind_await.
  destruct (W _ (Generate o5 openai connection)) as [o6|e] eqn:H6; cbn [fst snd].
  2: { flatten_history.
       apply (run_stage_failed _ _ _ _ _ _ _ _ _ _ _ [o1; o2; o3; o4; o5] _ e eq_refl); [exact H6 | answered]. }
  rewrite encode_advice_eq. flatten_history.
  destruct (encode_advice py o6) as [encoded_message|e] eqn:He; cbn [fst snd].
  - apply (run_notified _ _ _ _ _ _ _ _ _ _ _ o1 o2 o3 o4 o5 o6 encoded_message); [answered | exact He |].
    apply surjective_pairing.
  - apply (run_encoding_failed _ _ _ _ _ _ _ _ _ _ _ o1 o2 o3 o4 o5 o6 e); [answered | exact He].
Qed.

End PipelineFacts.

(** ** Traces of send *)




Lemma curl_calls_stages (d : trace) (l : list str) (m key : str) :
  map fst d = map (fun p => curl_call p m key) l ->
  stages d = repeat StNotify (List.length d).
Proof.
  revert l; induction d as [|[c a] d IH]; intros [|p l] H; try discriminate.
  - reflexivity.
  - cbn [map fst] in H. injection H as -> H.
    cbn [stages map fst stage_of curl_call List.length repeat]. f_equal.
    exact (IH l H).
Qed.

Section SendTrace.

Variable W : world.
Variables (ps : list str) (m : str) (tb : Secret) (h : trace).

(** The events of [send] all belong to the notify stage. *)
Lemma send_to_stages :
  stages (snd (send_to W ps m tb h))
  = repeat StNotify (List.length (snd (send_to W ps m tb h))).
Proof.
  rewrite send_to_eq. destruct (W h (Plaintext tb)) as [key|e]; [|reflexivity].
  cbn [snd stages map fst stage_of List.length repeat]. f_equal.
  pose proof (send_loop_run W m key ps (h ++ [(Plaintext tb, Ok key)]) None) as Hrun.
  apply loop_run_calls in Hrun as [_ Hcalls].
  exact (curl_calls_stages _ _ _ _ Hcalls).
Qed.


End SendTrace.

Lemma send_to_stage_notify (W : world) ps m tb h (ev : event) :
  In ev (snd (send_to W ps m tb h)) -> stage_of (fst ev) = StNotify.
Proof.
  intros Hin. pose proof (send_to_stages W ps m tb h) as Hst.
  assert (Hs : In (stage_of (fst ev)) (stages (snd (send_to W ps m tb h)))).
  { unfold stages. now apply (in_map (fun ev => stage_of (fst ev))). }
  rewrite Hst in Hs. now apply repeat_spec in Hs.
Qed.

(** Every delivery of [send] is the curl command for one of its recipients,
    carrying the message it was given. *)
Lemma send_to_delivery_calls (W : world) ps m tb h (ev : event) :
  In ev (deliveries (snd (send_to W ps m tb h))) ->
  exists p key, In p ps /\ W h (Plaintext tb) = Ok key /\ fst ev = curl_call p m key.
Proof.
  destruct (W h (Plaintext tb)) as [key|e] eqn:Hkey.
  - rewrite (send_to_deliveries W ps m tb h key Hkey). intros Hin.
    pose proof (send_loop_run W m key ps (h ++ [(Plaintext tb, Ok key)]) None) as Hrun.
    apply loop_run_calls in Hrun as [_ Hcalls].
    apply (in_map fst) in Hin. rewrite Hcalls in Hin.
    apply in_map_iff in Hin as [p [Hp Hin]].
    exists p, key. repeat split; [|now symmetry].
    rewrite <- (firstn_skipn (List.length (snd (send_loop W ps m key None (h ++ [(Plaintext tb, Ok key)])))) ps).
    apply in_or_app. now left.
  - rewrite (send_to_no_key W ps m tb h e Hkey). intros [].
Qed.

Section SendOutcomes.

Variable W : world.
Variables (ps : list str) (m : str) (tb : Secret) (h : trace).


(** A key that cannot be resolved surfaces as it was raised. *)
Lemma send_to_key_failure (s : Secret) (e : exn) :
  In (Plaintext s, Raise e) (snd (send_to W ps m tb h)) ->
  fst (send_to W ps m tb h) = Raise e.
Proof.
  rewrite send_to_eq. destruct (W h (Plaintext tb)) as [key|e'] eqn:Hkey; cbn [fst snd].
  - intros [Habs | Hin]; [discriminate|].
    pose proof (send_loop_run W m key ps (h ++ [(Plaintext tb, Ok key)]) None) as Hrun.
    apply loop_run_calls in Hrun as [_ Hcalls].
    apply (in_map fst) in Hin. rewrite Hcalls in Hin.
    apply in_map_iff in Hin as [p [Habs _]]. discriminate.
  - intros [Heq | []]. now injection Heq as _ ->.
Qed.

(** An attempt that is not delivered decides what [send] raises. *)
Lemma send_to_undelivered (c : call) (a : result str) :
  In (c, a) (deliveries (snd (send_to W ps m tb h))) ->
  delivered (c, a) = false ->
  exists p key, c = curl_call p m key
                /\ fst (send_to W ps m tb h) = Raise (surfaced p a).
Proof.
  destruct (W h (Plaintext tb)) as [key|e] eqn:Hkey.
  - pose proof (send_to_outcome W ps m tb h key Hkey) as Hout. cbv zeta in Hout.
    set (r := fst _) in *. set (d := deliveries _) in *. clearbody r d.
    intros Hin Hnd.
    destruct Hout as [[_ [Hd _]]
                     | [[ps0 [pl [d0 [resp [_ [_ [_ [Hall _]]]]]]]]
                       | [d0 [p [a' [Hd [Hall [_ [_ Hr]]]]]]]]].
    + rewrite Hd in Hin. destruct Hin.
    + rewrite forallb_forall in Hall. rewrite (Hall _ Hin) in Hnd. discriminate.
    + rewrite Hd in Hin. apply in_app_or in Hin as [Hin | [Heq | []]].
      * rewrite forallb_forall in Hall. rewrite (Hall _ Hin) in Hnd. discriminate.
      * injection Heq as <- <-. now exists p, key.
  - rewrite (send_to_no_key W ps m tb h e Hkey). intros [].
Qed.

(** When every recipient has a delivered attempt, [send] returns the
    response of the last one. *)
Lemma send_to_all_delivered :
  ps <> [] ->
  List.length (deliveries (snd (send_to W ps m tb h))) = List.length ps ->
  forallb delivered (deliveries (snd (send_to W ps m tb h))) = true ->
  exists key ps0 p_last d0 response,
    ps = ps0 ++ [p_last]
    /\ snd (send_to W ps m tb h)
       = (Plaintext tb, Ok key) :: d0 ++ [(curl_call p_last m key, Ok response)]
    /\ fst (send_to W ps m tb h) = Ok response.
Proof.
  intros Hps Hlen Hall.
  destruct (W h (Plaintext tb)) as [key|e] eqn:Hkey.
  - pose proof (send_to_outcome W ps m tb h key Hkey) as Hout. cbv zeta in Hout.
    pose proof (send_to_deliveries W ps m tb h key Hkey) as Hdel.
    assert (Hsnd : snd (send_to W ps m tb h)
                   = (Plaintext tb, Ok key) :: deliveries (snd (send_to W ps m tb h))).
    { rewrite Hdel. rewrite send_to_eq, Hkey. reflexivity. }
    set (r := fst _) in *. set (d := deliveries _) in *. clearbody r d.
    destruct Hout as [[Hnil _]
                     | [[ps0 [pl [d0 [resp [Hps0 [Hd [_ [_ Hr]]]]]]]]
                       | [d0 [p [a' [Hd [_ [_ [Hf _]]]]]]]]].
    + contradiction.
    + exists key, ps0, pl, d0, resp. rewrite Hsnd, Hd. repeat split; assumption.
    + rewrite Hd in Hall. last_fails Hall Hf.
  - rewrite (send_to_no_key W ps m tb h e Hkey) in Hlen. cbn in Hlen.
    destruct ps; [contradiction | discriminate].
Qed.

End SendOutcomes.


(** ** The stages of a run *)

(** Walk down an explicit trace along the index of a lookup. *)
Ltac walk H :=
  repeat match type of H with
         | nth_error (_ :: _) ?j = _ => is_var j; destruct j; cbn [nth_error] in H
         | nth_error [] ?j = Some _ => destruct j; discriminate H
         end.

Ltac explicit_trace :=
  cbn [completed app] in *;
  unfold ev_fetch, ev_filter, ev_categorize, ev_persist, ev_retrieve, ev_generate in *.

(** Go through the members of an explicit trace. *)
Ltac members H :=
  cbn [In] in H;
  repeat match type of H with
         | _ \/ _ => destruct H as [H|H]
         | False => contradiction H
         end.

Section PipelineTheorems.

Variable W : world.
Variable py : interpreter.
Variables apiKey sheet connection hftoken openai textBelt : Secret.
Variables database collection : str.



(** C7, as the code has it.  A failure reaches the caller of
    [run_pipeline] as the exception that was raised, with no stage name
    added: the exception of a failing stage before the notifier, the
    exception of the decoding or encoding of the advice, and the exception
    of the key lookup surface unchanged.  Only an attempt that is not
    delivered is wrapped, in a [RuntimeError] that names the recipient's
    number and carries the text of the underlying error; and that only when
    the [except Exception] clause handles what the attempt ended with: an
    exception of the call whose class lies outside [Exception] surfaces
    unchanged as well. *)
Theorem failures_surface_as_raised (h : trace) :
  let r := fst (run_pipeline W py apiKey sheet connection hftoken openai textBelt
                  database collection h) in
  let t := snd (run_pipeline W py apiKey sheet connection hftoken openai textBelt
                  database collection h) in
  (forall c e, In (c, Raise e) t -> stage_of c <> StNotify -> r = Raise e)
  /\ (forall g resp e,
        In (Generate g openai connection, Ok resp) t ->
        encode_advice py resp = Raise e -> r = Raise e)
  /\ (forall s e, In (Plaintext s, Raise e) t -> r = Raise e)
  /\ (forall c a,
        In (c, a) (deliveries t) -> delivered (c, a) = false ->
        exists p encoded_message key,
          c = curl_call p encoded_message key
          /\ (if caught a
              then r = Raise (sending_error p (failure_detail p a))
              else r = a)).
Proof.
  cbv zeta.
  pose proof (run_pipeline_run W py apiKey sheet connection hftoken openai textBelt
                database collection h) as Hrun.
  set (r := fst _) in *. set (t := snd _) in *. clearbody r t.
  destruct Hrun as [outs c e Hc HW _ | o1 o2 o3 o4 o5 o6 e _ He
                   | o1 o2 o3 o4 o5 o6 msg r d _ He Hsend].
  - destruct outs as [|o1 [|o2 [|o3 [|o4 [|o5 [|o6 outs]]]]]];
      cbn [next_call] in Hc; try discriminate Hc; injection Hc as <-; explicit_trace.
    all: split; [intros c0 e0 Hin _; members Hin; try discriminate Hin;
                 now injection Hin as _ <-|].
    all: split; [intros g resp e0 Hin _; members Hin; discriminate Hin|].
    all: split; [intros s e0 Hin; members Hin; discriminate Hin|].
    all: intros c0 a0 [].
  - explicit_trace.
    split; [intros c0 e0 Hin _; members Hin; discriminate Hin|].
    split; [intros g resp e0 Hin He0; members Hin; try discriminate Hin;
            injection Hin as _ <-; congruence|].
    split; [intros s e0 Hin; members Hin; discriminate Hin|].
    intros c0 a0 [].
  - explicit_trace. unfold send in Hsend.
    set (h' := h ++ _) in Hsend.
    assert (Hr : fst (send_to W phone_numbers msg textBelt h') = r) by now rewrite Hsend.
    assert (Hd : snd (send_to W phone_numbers msg textBelt h') = d) by now rewrite Hsend.
    clearbody h'. clear Hsend.
    assert (Hnotify : forall ev, In ev d -> stage_of (fst ev) = StNotify).
    { intros ev Hin. rewrite <- Hd in Hin. exact (send_to_stage_notify _ _ _ _ _ _ Hin). }
    split.
    { intros c0 e0 Hin Hst. members Hin; try discriminate Hin.
      apply Hnotify in Hin. contradiction. }
    split.
    { intros g resp e0 Hin He0. members Hin; try discriminate Hin.
      - injection Hin as _ <-. congruence.
      - apply Hnotify in Hin. discriminate Hin. }
    split.
    { intros s e0 Hin. members Hin; try discriminate Hin.
      rewrite <- Hd in Hin. rewrite <- Hr. exact (send_to_key_failure _ _ _ _ _ _ _ Hin). }
    intros c0 a0 Hin Hnd. cbn [deliveries filter is_delivery fst] in Hin.
    fold (deliveries d) in Hin. rewrite <- Hd in Hin.
    destruct (send_to_undelivered _ _ _ _ _ _ _ Hin Hnd) as [p [key [Hc Hraise]]].
    exists p, msg, key. split; [exact Hc|]. rewrite <- Hr, Hraise.
    destruct (caught a0) eqn:Hcaught.
    + now rewrite (surfaced_caught p a0 Hcaught).
    + symmetry. now apply surfaced_escaped.
Qed.



(** C10.  When every recipient of the list has an attempt and all the
    attempts are delivered, [send] returns the provider response of the
    last recipient of the list, which is the last event of its trace; the
    same holds for [run_pipeline], whose result is then the response to
    the attempt for the second of the two numbers.  The earlier responses
    are no part of the returned value. *)
Theorem all_delivered_returns_last_response (h : trace) :
  (forall ps m tb,
      ps <> [] ->
      List.length (deliveries (snd (send_to W ps m tb h))) = List.length ps ->
      forallb delivered (deliveries (snd (send_to W ps m tb h))) = true ->
      exists key ps0 p_last d0 response,
        ps = ps0 ++ [p_last]
        /\ snd (send_to W ps m tb h)
           = (Plaintext tb, Ok key) :: d0 ++ [(curl_call p_last m key, Ok response)]
        /\ fst (send_to W ps m tb h) = Ok response)
  /\ (let r := fst (run_pipeline W py apiKey sheet connection hftoken openai textBelt
                      database collection h) in
      let t := snd (run_pipeline W py apiKey sheet connection hftoken openai textBelt
                      database collection h) in
      List.length (deliveries t) = List.length phone_numbers ->
      forallb delivered (deliveries t) = true ->
      exists t0 encoded_message key response,
        t = t0 ++ [(curl_call (lit "15512259418") encoded_message key, Ok response)]
        /\ r = Ok response).
Proof.
  split; [intros ps m tb; apply send_to_all_delivered|].
  cbv zeta.
  pose proof (run_pipeline_run W py apiKey sheet connection hftoken openai textBelt
                database collection h) as Hrun.
  set (r := fst _) in *. set (t := snd _) in *. clearbody r t.
  destruct Hrun as [outs c e Hc HW _ | o1 o2 o3 o4 o5 o6 e _ He
                   | o1 o2 o3 o4 o5 o6 msg r d _ He Hsend].
  - destruct outs as [|o1 [|o2 [|o3 [|o4 [|o5 [|o6 outs]]]]]];
      cbn [next_call] in Hc; try discriminate Hc; injection Hc as <-; explicit_trace.
    all: intros Hlen; discriminate Hlen.
  - explicit_trace. intros Hlen; discriminate Hlen.
  - explicit_trace. unfold send in Hsend.
    set (h' := h ++ _) in Hsend.
    assert (Hr : fst (send_to W phone_numbers msg textBelt h') = r) by now rewrite Hsend.
    assert (Hd : snd (send_to W phone_numbers msg textBelt h') = d) by now rewrite Hsend.
    clearbody h'. clear Hsend.
    cbn [deliveries filter is_delivery fst]. fold (deliveries d).
    rewrite <- Hd, <- Hr. intros Hlen Hall.
    destruct (send_to_all_delivered W phone_numbers msg textBelt h'
                ltac:(discriminate) Hlen Hall)
      as [key [ps0 [pl [d0 [resp [Hps [Hsnd Hfst]]]]]]].
    change phone_numbers with ([lit "15162341744"] ++ [lit "15512259418"]) in Hps.
    apply app_inj_tail in Hps as [_ <-].
    exists ([(FetchData apiKey sheet, Ok o1);
             (Filter o1 connection database collection, Ok o2);
             (Categorize o2 hftoken, Ok o3);
             (WriteMongo o3 connection database collection, Ok o4);
             (GetData connection database collection, Ok o5);
             (Generate o5 openai connection, Ok o6);
             (Plaintext textBelt, Ok key)] ++ d0), msg, key, resp.
    split; [now rewrite Hsnd | exact Hfst].
Qed.

End PipelineTheorems.

(** ** The ledger *)

Lemma str_eqb_refl (a : str) : str_eqb a a = true.
Proof. now apply str_eqb_eq. Qed.

Lemma secret_eqb_refl (a : Secret) : secret_eqb a a = true.
Proof. destruct a. apply str_eqb_refl. Qed.

Lemma written_app (h1 h2 : trace) (c : Secret) (d k : str) :
  written (h1 ++ h2) c d k = written h1 c d k ++ written h2 c d k.
Proof.
  induction h1 as [|[c0 a0] h1 IH]; [reflexivity|].
  destruct c0, a0; cbn [app written]; try exact IH.
  destruct (secret_eqb _ c && str_eqb _ d && str_eqb _ k); [|exact IH].
  cbn [app]. now rewrite IH.
Qed.

Lemma written_In (h : trace) (b : str) (c : Secret) (d k : str) (ack : str) :
  In (WriteMongo b c d k, Ok ack) h -> In b (written h c d k).
Proof.
  induction h as [|ev h IH]; [intros []|].
  intros [-> | Hin].
  - cbn [written]. rewrite secret_eqb_refl, !str_eqb_refl. now left.
  - specialize (IH Hin). destruct ev as [c0 a0]. destruct c0, a0; cbn [written];
      try exact IH.
    destruct (secret_eqb _ c && str_eqb _ d && str_eqb _ k); [now right | exact IH].
Qed.

(** The sample worlds keep a ledger with read-after-write visibility. *)
Lemma sample_world_read_after_write (a : answers) : read_after_write (sample_world a).
Proof.
  intros h c d k history Hread batch Hin. cbn [sample_world] in Hread.
  injection Hread as <-. now apply contains_concat.
Qed.

Lemma no_payload_in_notify (d : trace) :
  (forall ev, In ev d -> stage_of (fst ev) = StNotify) -> advice_payloads d = [].
Proof.
  induction d as [|[c a] d IH]; intros Hall; [reflexivity|].
  unfold advice_payloads in *. cbn [filter].
  assert (Hc : stage_of c = StNotify) by (apply (Hall (c, a)); now left).
  destruct c; try discriminate Hc; cbn [is_generate fst andb];
    apply IH; intros ev Hin; apply Hall; now right.
Qed.

Section Ledger.

Variable W : world.
Variable py : interpreter.
Hypothesis store : read_after_write W.
Variables apiKey sheet connection hftoken openai textBelt : Secret.
Variables database collection : str.

(** C4, as the code has it.  The retrieve-for-advice read of a run is its
    fifth call: it comes after the write of the batch that categorize
    returned, to the same collection, and that write succeeded and is part
    of the history the read is answered from.  The generator is given the
    history that this read returned, which, in a world whose ledger has
    read-after-write visibility, contains that batch.  A run calls for at
    most one advice payload: exactly one when it returns, none when a stage
    before the notifier fails. *)
Theorem advice_reads_this_runs_write (h : trace) :
  let r := fst (run_pipeline W py apiKey sheet connection hftoken openai textBelt
                  database collection h) in
  let t := snd (run_pipeline W py apiKey sheet connection hftoken openai textBelt
                  database collection h) in
  (forall i c a,
      nth_error t i = Some (c, a) -> stage_of c = StRetrieve ->
      exists new_transactions batch ack,
        i = 4%nat
        /\ c = GetData connection database collection
        /\ nth_error t 2 = Some (Categorize new_transactions hftoken, Ok batch)
        /\ nth_error t 3 = Some (WriteMongo batch connection database collection, Ok ack)
        /\ In batch (written (h ++ firstn i t) connection database collection))
  /\ (forall history o c a,
        In (Generate history o c, a) t ->
        exists new_transactions batch ack,
          nth_error t 2 = Some (Categorize new_transactions hftoken, Ok batch)
          /\ nth_error t 3 = Some (WriteMongo batch connection database collection, Ok ack)
          /\ nth_error t 4 = Some (GetData connection database collection, Ok history)
          /\ nth_error t 5 = Some (Generate history o c, a)
          /\ contains batch history = true)
  /\ (List.length (advice_payloads t) <= 1)%nat
  /\ ((exists v, r = Ok v) -> List.length (advice_payloads t) = 1%nat)
  /\ (forall c e, In (c, Raise e) t -> stage_of c <> StNotify -> advice_payloads t = []).
Proof.
  cbv zeta.
  pose proof (run_pipeline_run W py apiKey sheet connection hftoken openai textBelt
                database collection h) as Hrun.
  set (r := fst _) in *. set (t := snd _) in *. clearbody r t.
  assert (Hwritten : forall o1 o2 o3 o4 rest,
             In o3 (written
                      (h ++ firstn 4
                              ((FetchData apiKey sheet, Ok o1)
                                 :: (Filter o1 connection database collection, Ok o2)
                                 :: (Categorize o2 hftoken, Ok o3)
                                 :: (WriteMongo o3 connection database collection, Ok o4)
                                 :: rest))
                      connection database collection)).
  { intros o1 o2 o3 o4 rest. cbn [firstn]. rewrite written_app. apply in_or_app. right.
    apply (written_In _ _ _ _ _ o4). do 3 right. now left. }
  assert (Hvisible : forall o1 o2 o3 o4 o5,
             W (h ++ [(FetchData apiKey sheet, Ok o1);
                      (Filter o1 connection database collection, Ok o2);
                      (Categorize o2 hftoken, Ok o3);
                      (WriteMongo o3 connection database collection, Ok o4)])
               (GetData connection database collection) = Ok o5 ->
             contains o3 o5 = true).
  { intros o1 o2 o3 o4 o5 Hread. apply (store _ _ _ _ _ Hread).
    exact (Hwritten o1 o2 o3 o4 []). }
  destruct Hrun as [outs c e Hc HW Hpre | o1 o2 o3 o4 o5 o6 e Hpre He
                   | o1 o2 o3 o4 o5 o6 msg r d Hpre He Hsend].
  - destruct outs as [|o1 [|o2 [|o3 [|o4 [|o5 [|o6 outs]]]]]];
      cbn [next_call] in Hc; try discriminate Hc; injection Hc as <-.
    6: { destruct (Hpre 4%nat ltac:(cbn; lia)) as [ci [oi [Hci HWi]]].
         explicit_trace. injection Hci as <- <-. apply Hvisible in HWi.
         split; [intros i c0 a0 Hi Hst; walk Hi; injection Hi as <- <-;
                 first [discriminate Hst
                       | exists o2, o3, o4; repeat split; apply Hwritten]|].
         split; [intros g o c0 a0 Hin; members Hin; try discriminate Hin;
                 injection Hin as <- <- <- <-; exists o2, o3, o4;
                 repeat split; exact HWi|].
         split; [cbn; lia|]. split; [intros [v Hv]; discriminate Hv|].
         intros c0 e0 _ _. reflexivity. }
    all: clear Hpre; explicit_trace.
    all: split; [intros i c0 a0 Hi Hst; walk Hi; injection Hi as <- <-;
                 first [discriminate Hst
                       | exists o2, o3, o4; repeat split; apply Hwritten]|].
    all: split; [intros g o c0 a0 Hin; members Hin; discriminate Hin|].
    all: split; [cbn; lia|]. all: split; [intros [v Hv]; discriminate Hv|].
    all: intros c0 e0 _ _; reflexivity.
  - destruct (Hpre 4%nat ltac:(lia)) as [ci [oi [Hci HWi]]].
    explicit_trace. injection Hci as <- <-. apply Hvisible in HWi.
    split; [intros i c0 a0 Hi Hst; walk Hi; injection Hi as <- <-;
            first [discriminate Hst
                  | exists o2, o3, o4; repeat split; apply Hwritten]|].
    split; [intros g o c0 a0 Hin; members Hin; try discriminate Hin;
            injection Hin as <- <- <- <-; exists o2, o3, o4;
            repeat split; exact HWi|].
    split; [cbn; lia|]. split; [intros [v Hv]; discriminate Hv|].
    intros c0 e0 Hin _. members Hin; discriminate Hin.
  - destruct (Hpre 4%nat ltac:(lia)) as [ci [oi [Hci HWi]]].
    explicit_trace. injection Hci as <- <-. apply Hvisible in HWi.
    unfold send in Hsend. set (h' := h ++ _) in Hsend.
    assert (Hd : snd (send_to W phone_numbers msg textBelt h') = d) by now rewrite Hsend.
    clearbody h'. clear Hsend.
    assert (Hnotify : forall ev, In ev d -> stage_of (fst ev) = StNotify).
    { intros ev Hin. rewrite <- Hd in Hin. exact (send_to_stage_notify _ _ _ _ _ _ Hin). }
    split.
    { intros i c0 a0 Hi Hst. walk Hi; try (injection Hi as <- <-);
        try discriminate Hst.
      - exists o2, o3, o4. repeat split. apply Hwritten.
      - apply nth_error_In, Hnotify in Hi. cbn [fst] in Hi. congruence. }
    split.
    { intros g o c0 a0 Hin. members Hin; try discriminate Hin.
      - injection Hin as <- <- <- <-. exists o2, o3, o4. repeat split. exact HWi.
      - apply Hnotify in Hin. discriminate Hin. }
    assert (Hpay : List.length
                     (advice_payloads
                        ((FetchData apiKey sheet, Ok o1)
                           :: (Filter o1 connection database collection, Ok o2)
                           :: (Categorize o2 hftoken, Ok o3)
                           :: (WriteMongo o3 connection database collection, Ok o4)
                           :: (GetData connection database collection, Ok o5)
                           :: (Generate o5 openai connection, Ok o6) :: d)) = 1%nat).
    { unfold advice_payloads. cbn [filter is_generate failed fst snd andb negb].
      fold (advice_payloads d). now rewrite (no_payload_in_notify d Hnotify). }
    split; [rewrite Hpay; lia|]. split; [intros _; exact Hpay|].
    intros c0 e0 Hin Hst. members Hin; try discriminate Hin.
    apply Hnotify in Hin. contradiction.
Qed.

End Ledger.

(** ** The sample runs *)



Lemma advice_reads_this_runs_write_witness :
  exists new_transactions batch ack,
    nth_error (snd (sample_run all_well)) 2
    = Some (Categorize new_transactions HF_TOKEN, Ok batch)
    /\ nth_error (snd (sample_run all_well)) 3
       = Some (WriteMongo batch DB_CONNECTION (lit "financial_data") (lit "transactions"),
               Ok ack)
    /\ nth_error (snd (sample_run all_well)) 4
       = Some (GetData DB_CONNECTION (lit "financial_data") (lit "transactions"),
               Ok (lit "2024-05-01,12.50,grocer,food"))
    /\ nth_error (snd (sample_run all_well)) 5
       = Some (Generate (lit "2024-05-01,12.50,grocer,food") OPENAI_KEY DB_CONNECTION,
               Ok (advice_envelope (lit "Spend less on food")))
    /\ contains batch (lit "2024-05-01,12.50,grocer,food") = true.
Proof.
  apply (proj1 (proj2 (advice_reads_this_runs_write
                         (sample_world all_well) sample_interpreter
                         (sample_world_read_after_write all_well)
                         API_KEY SHEET_ID DB_CONNECTION HF_TOKEN OPENAI_KEY
                         TEXTBELT_KEY (lit "financial_data") (lit "transactions") []))).
  vm_compute. do 5 right. left. reflexivity.
Defined.

(** C4, as stated, fails in its count: a run whose fetch fails produces no
    advice payload, where the claim has exactly one for every run. *)
Lemma failed_fetch_produces_no_advice :
  let run := sample_run (with_fetch (Raise (Exn "QueryError" (lit "sheet not found")))
                           all_well) in
  fst run = Raise (Exn "QueryError" (lit "sheet not found"))
  /\ advice_payloads (snd run) = []
  /\ List.length (advice_payloads (snd run)) <> 1%nat.
Proof. vm_compute. repeat split. discriminate. Qed.



Lemma failures_surface_as_raised_witness :
  fst (sample_run (with_fetch (Raise (Exn "QueryError" (lit "sheet not found"))) all_well))
  = Raise (Exn "QueryError" (lit "sheet not found")).
Proof.
  apply (proj1 (failures_surface_as_raised
                  (sample_world
                     (with_fetch (Raise (Exn "QueryError" (lit "sheet not found"))) all_well))
                  sample_interpreter
                  API_KEY SHEET_ID DB_CONNECTION HF_TOKEN OPENAI_KEY
                  TEXTBELT_KEY (lit "financial_data") (lit "transactions") []))
    with (c := FetchData API_KEY SHEET_ID).
  - vm_compute. left. reflexivity.
  - discriminate.
Defined.

(** C7, as stated, fails: the fetch stage fails and the caller gets the
    exception of the collaborator itself; its class and its text are the
    underlying ones and name no stage. *)
Lemma stage_failure_surfaces_bare :
  let underlying := Exn "QueryError" (lit "sheet not found") in
  let run := sample_run (with_fetch (Raise underlying) all_well) in
  fst run = Raise underlying
  /\ snd run = [(FetchData API_KEY SHEET_ID, Raise underlying)]
  /\ existsb (fun name => contains (lit name) (exn_msg underlying))
             ["fetch"; "Fetch"; "stage"; "PipelineError"]%string = false.
Proof. vm_compute. repeat split. Qed.

Lemma all_delivered_returns_last_response_witness :
  exists t0 encoded_message key response,
    snd (sample_run (with_first (Ok (lit "success: queued as 41")) all_well))
    = t0 ++ [(curl_call (lit "15512259418") encoded_message key, Ok response)]
    /\ fst (sample_run (with_first (Ok (lit "success: queued as 41")) all_well)) = Ok response.
Proof.
  apply (proj2 (all_delivered_returns_last_response
                  (sample_world (with_first (Ok (lit "success: queued as 41")) all_well))
                  sample_interpreter
                  API_KEY SHEET_ID DB_CONNECTION HF_TOKEN OPENAI_KEY
                  TEXTBELT_KEY (lit "financial_data") (lit "transactions") []));
    vm_compute; reflexivity.
Defined.

(** ** Percent-encoding *)

(** Setting bits that are clear adds them. *)
Lemma lor_low_bits (hi x n : Z) :
  0 <= n -> 0 <= x < 2 ^ n -> Z.land hi (Z.ones n) = 0 -> Z.lor hi x = hi + x.
Proof.
  intros Hn Hx Hhi.
  assert (Hxn : Z.land x (Z.ones n) = x).
  { rewrite Z.land_ones by exact Hn. apply Z.mod_small. exact Hx. }
  assert (Hdisj : Z.land hi x = 0).
  { rewrite <- Hxn, (Z.land_comm x), Z.land_assoc, Hhi. apply Z.land_0_l. }
  pose proof (Z.add_lor_land hi x) as Hadd. rewrite Hdisj in Hadd. lia.
Qed.

Lemma shiftr_6 (c : Z) : Z.shiftr c 6 = c / 64.
Proof. now rewrite Z.shiftr_div_pow2. Qed.
Lemma shiftr_12 (c : Z) : Z.shiftr c 12 = c / 4096.
Proof. now rewrite Z.shiftr_div_pow2. Qed.
Lemma shiftr_18 (c : Z) : Z.shiftr c 18 = c / 262144.
Proof. now rewrite Z.shiftr_div_pow2. Qed.
Lemma land_3F (c : Z) : Z.land c 0x3F = c mod 64.
Proof. change 0x3F with (Z.ones 6). now rewrite Z.land_ones. Qed.
Lemma shiftl_6 (c : Z) : Z.shiftl c 6 = c * 64.
Proof. now rewrite Z.shiftl_mul_pow2. Qed.
Lemma shiftl_12 (c : Z) : Z.shiftl c 12 = c * 4096.
Proof. now rewrite Z.shiftl_mul_pow2. Qed.
Lemma shiftl_18 (c : Z) : Z.shiftl c 18 = c * 262144.
Proof. now rewrite Z.shiftl_mul_pow2. Qed.

Lemma continuation_byte (x : Z) : 0 <= x < 64 -> Z.lor 0x80 x = 128 + x.
Proof. intros Hx. now apply (lor_low_bits 0x80 x 6). Qed.
Lemma lead_byte_2 (x : Z) : 0 <= x < 32 -> Z.lor 0xC0 x = 192 + x.
Proof. intros Hx. now apply (lor_low_bits 0xC0 x 5). Qed.
Lemma lead_byte_3 (x : Z) : 0 <= x < 16 -> Z.lor 0xE0 x = 224 + x.
Proof. intros Hx. now apply (lor_low_bits 0xE0 x 4). Qed.
Lemma lead_byte_4 (x : Z) : 0 <= x < 8 -> Z.lor 0xF0 x = 240 + x.
Proof. intros Hx. now apply (lor_low_bits 0xF0 x 3). Qed.

(** The bytes of one character, in arithmetic. *)
Lemma utf8_encode_char_arith (ch : Z) :
  wf_code_point ch ->
  utf8_encode_char ch =
  if ch <? 0x80 then Some [ch]
  else if ch <? 0x800 then Some [192 + ch / 64; 128 + ch mod 64]
  else if is_surrogate ch then None
  else if ch <? 0x10000 then
    Some [224 + ch / 4096; 128 + (ch / 64) mod 64; 128 + ch mod 64]
  else Some [240 + ch / 262144; 128 + (ch / 4096) mod 64;
             128 + (ch / 64) mod 64; 128 + ch mod 64].
Proof.
  intros [Hlo Hhi]. unfold utf8_encode_char.
  rewrite !shiftr_6, !shiftr_12, !shiftr_18, !land_3F.
  rewrite !continuation_byte by (apply Z.mod_pos_bound; lia).
  destruct (Z.ltb_spec ch 0x80); [reflexivity|].
  destruct (Z.ltb_spec ch 0x800).
  { rewrite lead_byte_2; [reflexivity|].
    split; [apply Z.div_pos; lia | apply Z.div_lt_upper_bound; lia]. }
  destruct (is_surrogate ch); [reflexivity|].
  destruct (Z.ltb_spec ch 0x10000).
  { rewrite lead_byte_3; [reflexivity|].
    split; [apply Z.div_pos; lia | apply Z.div_lt_upper_bound; lia]. }
  rewrite lead_byte_4; [reflexivity|].
  split; [apply Z.div_pos; lia | apply Z.div_lt_upper_bound; lia].
Qed.

Lemma utf8_decode_cons (ch : Z) (s1 : bytes) :
  utf8_decode (ch :: s1) =
  if ch <? 0x80 then ch :: utf8_decode s1
  else if ch <? 0xC2 then REPLACEMENT :: utf8_decode s1
  else if ch <? 0xE0 then
    match s1 with
    | [] => [REPLACEMENT]
    | ch2 :: s2 =>
        if negb (is_continuation_byte ch2) then REPLACEMENT :: utf8_decode s1
        else (Z.shiftl ch 6 + ch2 - (Z.shiftl 0xC0 6 + 0x80)) :: utf8_decode s2
    end
  else if ch <? 0xF0 then
    match s1 with
    | [] => [REPLACEMENT]
    | ch2 :: s2 =>
        if negb (is_continuation_byte ch2)
           || (if ch2 <? 0xA0 then ch =? 0xE0 else ch =? 0xED)
        then REPLACEMENT :: utf8_decode s1
        else
          match s2 with
          | [] => [REPLACEMENT]
          | ch3 :: s3 =>
              if negb (is_continuation_byte ch3) then REPLACEMENT :: utf8_decode s2
              else (Z.shiftl ch 12 + Z.shiftl ch2 6 + ch3
                    - (Z.shiftl 0xE0 12 + Z.shiftl 0x80 6 + 0x80)) :: utf8_decode s3
          end
    end
  else if ch <? 0xF5 then
    match s1 with
    | [] => [REPLACEMENT]
    | ch2 :: s2 =>
        if negb (is_continuation_byte ch2)
           || (if ch2 <? 0x90 then ch =? 0xF0 else ch =? 0xF4)
        then REPLACEMENT :: utf8_decode s1
        else
          match s2 with
          | [] => [REPLACEMENT]
          | ch3 :: s3 =>
              if negb (is_continuation_byte ch3) then REPLACEMENT :: utf8_decode s2
              else
                match s3 with
                | [] => [REPLACEMENT]
                | ch4 :: s4 =>
                    if negb (is_continuation_byte ch4)
                    then REPLACEMENT :: utf8_decode s3
                    else (Z.shiftl ch 18 + Z.shiftl ch2 12 + Z.shiftl ch3 6 + ch4
                          - (Z.shiftl 0xF0 18 + Z.shiftl 0x80 12
                             + Z.shiftl 0x80 6 + 0x80)) :: utf8_decode s4
                end
          end
    end
  else REPLACEMENT :: utf8_decode s1.
Proof. destruct s1 as [|? [|? [|? ?]]]; reflexivity. Qed.

Lemma is_continuation_byte_true (x : Z) :
  0 <= x < 64 -> is_continuation_byte (128 + x) = true.
Proof.
  intros Hx. unfold is_continuation_byte.
  apply andb_true_iff. split; [apply Z.leb_le | apply Z.ltb_lt]; lia.
Qed.

(** Settle the comparisons of a goal whose operands are pinned down by the
    hypotheses. *)
Ltac settle :=
  repeat first
    [ progress cbv beta iota
    | progress cbn [negb orb andb]
    | match goal with
      | |- context [?a <? ?b] =>
          first [ rewrite (proj2 (Z.ltb_lt a b)) by lia
                | rewrite (proj2 (Z.ltb_ge a b)) by lia ]
      | |- context [?a =? ?b] =>
          first [ rewrite (proj2 (Z.eqb_eq a b)) by lia
                | rewrite (proj2 (Z.eqb_neq a b)) by lia ]
      end ].

Lemma Ok_inj {A} (a b : A) : Ok a = Ok b -> a = b.
Proof. intros H. now injection H. Qed.

Lemma Some_inj {A} (a b : A) : Some a = Some b -> a = b.
Proof. intros H. now injection H. Qed.

(** Decoding undoes the encoding of one character. *)
Lemma utf8_decode_encode_char (ch : Z) (bs rest : bytes) :
  wf_code_point ch ->
  utf8_encode_char ch = Some bs ->
  utf8_decode (bs ++ rest) = ch :: utf8_decode rest.
Proof.
  intros Hwf Henc. rewrite (utf8_encode_char_arith ch Hwf) in Henc.
  destruct Hwf as [Hlo Hhi]. unfold is_surrogate in Henc.
  pose proof (Z.div_mod ch 64 ltac:(lia)) as E1.
  pose proof (Z.mod_pos_bound ch 64 ltac:(lia)) as B1.
  pose proof (Z.div_mod (ch / 64) 64 ltac:(lia)) as E2.
  pose proof (Z.mod_pos_bound (ch / 64) 64 ltac:(lia)) as B2.
  pose proof (Z.div_mod (ch / 4096) 64 ltac:(lia)) as E3.
  pose proof (Z.mod_pos_bound (ch / 4096) 64 ltac:(lia)) as B3.
  assert (Q2 : ch / 4096 = ch / 64 / 64) by (rewrite Z.div_div by lia; reflexivity).
  assert (Q3 : ch / 262144 = ch / 4096 / 64) by (rewrite Z.div_div by lia; reflexivity).
  set (m1 := ch mod 64) in *. set (q1 := ch / 64) in *.
  set (m2 := q1 mod 64) in *. set (q2 := ch / 4096) in *.
  set (m3 := q2 mod 64) in *. set (q3 := ch / 262144) in *.
  rewrite <- Q2 in E2. rewrite <- Q3 in E3.
  clearbody m1 q1 m2 q2 m3 q3.
  destruct (Z.ltb_spec ch 0x80).
  { apply Some_inj in Henc. subst bs. cbn [app]. rewrite utf8_decode_cons. now settle. }
  destruct (Z.ltb_spec ch 0x800).
  { apply Some_inj in Henc. subst bs. cbn [app]. rewrite utf8_decode_cons. cbv beta iota.
    rewrite (is_continuation_byte_true m1 B1), !shiftl_6. settle.
    f_equal. lia. }
  destruct (Z.leb_spec 0xD800 ch); destruct (Z.leb_spec ch 0xDFFF);
    cbn [andb] in Henc; try discriminate Henc.
  all: destruct (Z.ltb_spec ch 0x10000).
  all: apply Some_inj in Henc; subst bs; cbn [app]; rewrite utf8_decode_cons; cbv beta iota;
    rewrite ?(is_continuation_byte_true m1 B1), ?(is_continuation_byte_true m2 B2),
      ?(is_continuation_byte_true m3 B3);
    repeat rewrite shiftl_6; repeat rewrite shiftl_12; repeat rewrite shiftl_18;
    settle; try (f_equal; lia).
  all: match goal with
       | |- context [?a <? ?b] => destruct (Z.ltb_spec a b)
       end; settle; f_equal; lia.
Qed.

(** Decoding undoes the encoding of a string. *)
Lemma utf8_decode_encode_from (object : str) (s : str) :
  forall pos bs,
    wf_str s -> utf8_encode_from object pos s = Ok bs -> utf8_decode bs = s.
Proof.
  induction s as [|ch s IH]; intros pos bs Hwf Henc.
  - apply Ok_inj in Henc. now subst bs.
  - cbn [utf8_encode_from] in Henc. inversion Hwf as [|? ? Hch Hs]; subst.
    destruct (utf8_encode_char ch) as [b1|] eqn:Hc; [|discriminate Henc].
    destruct (utf8_encode_from object (S pos) s) as [b2|e] eqn:Hs'; [|discriminate Henc].
    apply Ok_inj in Henc. subst bs.
    rewrite (utf8_decode_encode_char ch b1 b2 Hch Hc). f_equal. now apply (IH (S pos)).
Qed.

Lemma utf8_decode_encode (s : str) (bs : bytes) :
  wf_str s -> utf8_encode s = Ok bs -> utf8_decode bs = s.
Proof. apply utf8_decode_encode_from. Qed.

Lemma utf8_encode_char_bytes (ch : Z) (bs : bytes) :
  wf_code_point ch -> utf8_encode_char ch = Some bs -> Forall is_byte bs.
Proof.
  intros Hwf Henc. rewrite (utf8_encode_char_arith ch Hwf) in Henc.
  destruct Hwf as [Hlo Hhi]. unfold is_byte.
  pose proof (Z.mod_pos_bound ch 64 ltac:(lia)) as B1.
  pose proof (Z.mod_pos_bound (ch / 64) 64 ltac:(lia)) as B2.
  pose proof (Z.mod_pos_bound (ch / 4096) 64 ltac:(lia)) as B3.
  assert (D1 : 0 <= ch / 64 < 32 \/ 2048 <= ch).
  { destruct (Z.lt_ge_cases ch 2048); [left|now right].
    split; [apply Z.div_pos; lia | apply Z.div_lt_upper_bound; lia]. }
  assert (D2 : 0 <= ch / 4096 < 16 \/ 65536 <= ch).
  { destruct (Z.lt_ge_cases ch 65536); [left|now right].
    split; [apply Z.div_pos; lia | apply Z.div_lt_upper_bound; lia]. }
  assert (D3 : 0 <= ch / 262144 < 8).
  { split; [apply Z.div_pos; lia | apply Z.div_lt_upper_bound; lia]. }
  destruct (Z.ltb_spec ch 0x80).
  { apply Some_inj in Henc. subst bs. repeat constructor; lia. }
  destruct (Z.ltb_spec ch 0x800).
  { apply Some_inj in Henc. subst bs. repeat constructor; lia. }
  destruct (is_surrogate ch); [discriminate Henc|].
  destruct (Z.ltb_spec ch 0x10000);
    apply Some_inj in Henc; subst bs; repeat constructor; lia.
Qed.

Lemma utf8_encode_from_bytes (object : str) (s : str) :
  forall pos bs,
    wf_str s -> utf8_encode_from object pos s = Ok bs -> Forall is_byte bs.
Proof.
  induction s as [|ch s IH]; intros pos bs Hwf Henc.
  - apply Ok_inj in Henc. subst bs. constructor.
  - cbn [utf8_encode_from] in Henc. inversion Hwf as [|? ? Hch Hs]; subst.
    destruct (utf8_encode_char ch) as [b1|] eqn:Hc; [|discriminate Henc].
    destruct (utf8_encode_from object (S pos) s) as [b2|e] eqn:Hs'; [|discriminate Henc].
    apply Ok_inj in Henc. subst bs. apply Forall_app. split.
    + exact (utf8_encode_char_bytes ch b1 Hch Hc).
    + now apply (IH (S pos)).
Qed.

Lemma utf8_encode_bytes (s : str) (bs : bytes) :
  wf_str s -> utf8_encode s = Ok bs -> Forall is_byte bs.
Proof. apply utf8_encode_from_bytes. Qed.

(** A character that is no surrogate has its bytes. *)
Lemma utf8_encode_char_some (ch : Z) :
  is_surrogate ch = false -> exists bs, utf8_encode_char ch = Some bs.
Proof.
  intros Hch. unfold utf8_encode_char. rewrite Hch.
  destruct (ch <? 0x80); [eexists; reflexivity|].
  destruct (ch <? 0x800); [eexists; reflexivity|].
  destruct (ch <? 0x10000); eexists; reflexivity.
Qed.


(** The encoder fails on surrogates only. *)
Lemma utf8_encode_from_succeeds (object : str) (s : str) :
  forall pos,
    forallb (fun ch => negb (is_surrogate ch)) s = true ->
    exists bs, utf8_encode_from object pos s = Ok bs.
Proof.
  induction s as [|ch s IH]; intros pos Hs.
  - now exists [].
  - cbn [forallb] in Hs. apply andb_true_iff in Hs as [Hch Hs].
    apply negb_true_iff in Hch.
    destruct (IH (S pos) Hs) as [bs' Hbs'].
    destruct (utf8_encode_char_some ch Hch) as [b1 Hb1].
    cbn [utf8_encode_from]. rewrite Hb1, Hbs'. eexists. reflexivity.
Qed.

Lemma utf8_encode_succeeds (s : str) :
  forallb (fun ch => negb (is_surrogate ch)) s = true -> exists bs, utf8_encode s = Ok bs.
Proof. apply utf8_encode_from_succeeds. Qed.

(** Plain ASCII decodes to itself. *)
Lemma utf8_decode_ascii (bs : bytes) :
  Forall (fun b => b < 0x80) bs -> utf8_decode bs = bs.
Proof.
  induction 1 as [|b bs Hb _ IH]; [reflexivity|].
  rewrite utf8_decode_cons. rewrite (proj2 (Z.ltb_lt b 0x80) Hb). now rewrite IH.
Qed.

(** A test that holds of the sixteen hex digits holds below sixteen. *)
Lemma below_sixteen (P : Z -> bool) :
  forallb P (map Z.of_nat (seq 0 16)) = true ->
  forall n, 0 <= n < 16 -> P n = true.
Proof.
  intros Hall n Hn. rewrite forallb_forall in Hall. apply Hall.
  apply in_map_iff. exists (Z.to_nat n). split; [lia|].
  apply in_seq. lia.
Qed.

Lemma hex_value_hex_upper (n : Z) : 0 <= n < 16 -> hex_value (hex_upper n) = Some n.
Proof.
  intros Hn.
  pose proof (below_sixteen
                (fun d => match hex_value (hex_upper d) with
                          | Some v => v =? d
                          | None => false
                          end) eq_refl n Hn) as Hd.
  cbv beta in Hd. destruct (hex_value (hex_upper n)) as [v|]; [|discriminate Hd].
  apply Z.eqb_eq in Hd. now subst v.
Qed.

Lemma hex_upper_ascii (n : Z) : 0 <= n < 16 -> 0 <= hex_upper n < 0x80.
Proof.
  intros Hn.
  pose proof (below_sixteen
                (fun d => (0 <=? hex_upper d) && (hex_upper d <? 0x80)) eq_refl n Hn) as Hd.
  cbv beta in Hd. apply andb_true_iff in Hd as [Hlo Hhi].
  apply Z.leb_le in Hlo. apply Z.ltb_lt in Hhi. now split.
Qed.

(** A safe byte is an ASCII character other than the percent sign. *)
Lemma is_safe_ascii (b : Z) :
  is_safe (lit "/") b = true -> 0 <= b < 0x80 /\ b <> code "%".
Proof.
  unfold is_safe. rewrite existsb_exists. intros [x [Hin Hx]].
  apply Z.eqb_eq in Hx. subst x.
  assert (Hall : forallb (fun x => (0 <=? x) && (x <? 0x80) && negb (x =? code "%"))
                         (ALWAYS_SAFE ++ lit "/") = true) by (vm_compute; reflexivity).
  rewrite forallb_forall in Hall. specialize (Hall b Hin).
  apply andb_true_iff in Hall as [Hall Hp]. apply andb_true_iff in Hall as [Hlo Hhi].
  apply Z.leb_le in Hlo. apply Z.ltb_lt in Hhi.
  apply negb_true_iff, Z.eqb_neq in Hp. now repeat split.
Qed.

Lemma unquote_to_bytes_cons (b : Z) (rest : bytes) :
  unquote_to_bytes (b :: rest) =
  if b =? code "%" then
    match rest with
    | h1 :: h2 :: rest' =>
        match hex_value h1, hex_value h2 with
        | Some a, Some c => (16 * a + c) :: unquote_to_bytes rest'
        | _, _ => b :: unquote_to_bytes rest
        end
    | _ => b :: unquote_to_bytes rest
    end
  else b :: unquote_to_bytes rest.
Proof. destruct rest as [|? [|? ?]]; reflexivity. Qed.

(** Unquoting undoes the quoting of one byte. *)
Lemma unquote_quoter (b : Z) (rest : bytes) :
  is_byte b ->
  unquote_to_bytes (quoter (lit "/") b ++ rest) = b :: unquote_to_bytes rest.
Proof.
  intros Hb. unfold quoter. destruct (is_safe (lit "/") b) eqn:Hsafe.
  - apply is_safe_ascii in Hsafe as [_ Hp]. cbn [app].
    rewrite unquote_to_bytes_cons. now rewrite (proj2 (Z.eqb_neq _ _) Hp).
  - cbn [app]. rewrite unquote_to_bytes_cons, Z.eqb_refl.
    unfold is_byte in Hb.
    rewrite !hex_value_hex_upper.
    + f_equal. pose proof (Z.div_mod b 16 ltac:(lia)). lia.
    + apply Z.mod_pos_bound. lia.
    + split; [apply Z.div_pos; lia | apply Z.div_lt_upper_bound; lia].
Qed.

Lemma unquote_quoted_bytes (bs : bytes) :
  Forall is_byte bs ->
  unquote_to_bytes (List.concat (map (quoter (lit "/")) bs)) = bs.
Proof.
  induction 1 as [|b bs Hb _ IH]; [reflexivity|].
  cbn [map List.concat]. rewrite (unquote_quoter b _ Hb). now rewrite IH.
Qed.

Lemma quoter_ascii (b : Z) :
  is_byte b -> Forall (fun c => c < 0x80) (quoter (lit "/") b).
Proof.
  intros Hb. unfold quoter, is_byte in *. destruct (is_safe (lit "/") b) eqn:Hsafe.
  - apply is_safe_ascii in Hsafe as [[_ Hlt] _].
    apply Forall_cons; [exact Hlt | apply Forall_nil].
  - apply Forall_cons; [reflexivity|].
    apply Forall_cons.
    { apply hex_upper_ascii.
      split; [apply Z.div_pos; lia | apply Z.div_lt_upper_bound; lia]. }
    apply Forall_cons; [|apply Forall_nil].
    apply hex_upper_ascii. apply Z.mod_pos_bound. lia.
Qed.

Lemma quoted_ascii (bs : bytes) :
  Forall is_byte bs ->
  Forall (fun c => c < 0x80) (List.concat (map (quoter (lit "/")) bs)).
Proof.
  induction 1 as [|b bs Hb _ IH]; [constructor|].
  cbn [map List.concat]. apply Forall_app. split; [now apply quoter_ascii | exact IH].
Qed.

Lemma quoted_all_safe (bs : bytes) :
  forallb (is_safe (lit "/")) bs = true ->
  List.concat (map (quoter (lit "/")) bs) = bs
  /\ Forall (fun c => c < 0x80) bs.
Proof.
  induction bs as [|b bs IH]; intros Hall; [split; [reflexivity | constructor]|].
  cbn [forallb] in Hall. apply andb_true_iff in Hall as [Hb Hall].
  destruct (IH Hall) as [Hq Ha]. cbn [map List.concat]. unfold quoter at 1.
  rewrite Hb. cbn [app]. rewrite Hq. split; [reflexivity|].
  constructor; [|exact Ha]. apply is_safe_ascii in Hb. lia.
Qed.

(** The short cut of [quote_from_bytes] agrees with the byte-wise quoting. *)
Lemma quote_from_bytes_eq (bs : bytes) :
  quote_from_bytes bs (lit "/") = List.concat (map (quoter (lit "/")) bs).
Proof.
  unfold quote_from_bytes. destruct bs as [|b bs]; [reflexivity|].
  destruct (forallb (is_safe (lit "/")) (b :: bs)) eqn:Hall; [|reflexivity].
  destruct (quoted_all_safe _ Hall) as [Hq Ha]. rewrite Hq.
  now apply utf8_decode_ascii.
Qed.

Lemma unquote_to_bytes_no_percent (e : bytes) :
  existsb (Z.eqb (code "%")) e = false -> unquote_to_bytes e = e.
Proof.
  induction e as [|b e IH]; intros Hno; [reflexivity|].
  cbn [existsb] in Hno. apply orb_false_iff in Hno as [Hb Hno].
  rewrite unquote_to_bytes_cons, Z.eqb_sym, Hb. now rewrite IH.
Qed.

Lemma unquoted_parts_ascii (s run : str) :
  Forall (fun c => c < 0x80) s ->
  unquoted_parts run s = utf8_decode (unquote_to_bytes (rev run ++ s)).
Proof.
  intros Hs. revert run. induction Hs as [|c s Hc _ IH]; intros run.
  - cbn [unquoted_parts]. now rewrite app_nil_r.
  - cbn [unquoted_parts]. rewrite (proj2 (Z.ltb_lt c 0x80) Hc).
    rewrite IH. cbn [rev]. now rewrite <- app_assoc.
Qed.

(** On ASCII text [unquote] is: unquote to bytes, then decode. *)
Lemma unquote_ascii (e : str) :
  Forall (fun c => c < 0x80) e -> unquote e = utf8_decode (unquote_to_bytes e).
Proof.
  intros He. unfold unquote.
  destruct (existsb (Z.eqb (code "%")) e) eqn:Hp; cbn [negb].
  - now apply unquoted_parts_ascii.
  - rewrite (unquote_to_bytes_no_percent e Hp). symmetry. now apply utf8_decode_ascii.
Qed.

(** C6.  Whenever the encoding step of the pipeline, [urllib.parse.quote],
    produces an encoded message for an advice text, percent-decoding that
    message with [urllib.parse.unquote] gives back the advice text exactly. *)
Theorem percent_encoding_round_trip (advice encoded_message : str) :
  wf_str advice ->
  quote (PStr advice) = Ok encoded_message ->
  unquote encoded_message = advice.
Proof.
  intros Hwf Hq. destruct advice as [|ch s].
  - apply Ok_inj in Hq. now subst encoded_message.
  - cbn [quote] in Hq.
    destruct (utf8_encode (ch :: s)) as [bs|e] eqn:Henc; [|discriminate Hq].
    apply Ok_inj in Hq. subst encoded_message.
    pose proof (utf8_encode_bytes _ _ Hwf Henc) as Hbytes.
    rewrite quote_from_bytes_eq.
    rewrite (unquote_ascii _ (quoted_ascii bs Hbytes)).
    rewrite (unquote_quoted_bytes bs Hbytes).
    exact (utf8_decode_encode _ _ Hwf Henc).
Qed.

(** The encoding step yields a message for every text without surrogates. *)
Lemma quote_succeeds (advice : str) :
  forallb (fun ch => negb (is_surrogate ch)) advice = true ->
  exists encoded_message, quote (PStr advice) = Ok encoded_message.
Proof.
  intros Hs. destruct advice as [|ch s]; [now exists []|].
  destruct (utf8_encode_succeeds _ Hs) as [bs Hbs].
  cbn [quote]. rewrite Hbs. eexists. reflexivity.
Qed.

Lemma wf_str_check (s : str) :
  forallb (fun c => (0 <=? c) && (c <? 0x110000)) s = true -> wf_str s.
Proof.
  intros H. apply Forall_forall. intros c Hc.
  rewrite forallb_forall in H. specialize (H c Hc).
  apply andb_true_iff in H as [Hlo Hhi].
  apply Z.leb_le in Hlo. apply Z.ltb_lt in Hhi. now split.
Qed.

Lemma percent_encoding_round_trip_witness :
  unquote (lit "Save%2010%25/month%2C%20caf%C3%A9%20%F0%9F%98%80")
  = lit "Save 10%/month, caf" ++ [0xE9; 0x20; 0x1F600].
Proof.
  apply percent_encoding_round_trip.
  - apply wf_str_check. reflexivity.
  - reflexivity.
Defined.

(** * Further properties *)

(** ** The encoded message *)

Lemma hex_upper_safe (n : Z) : 0 <= n < 16 -> is_safe (lit "/") (hex_upper n) = true.
Proof.
  intros Hn.
  exact (below_sixteen (fun d => is_safe (lit "/") (hex_upper d)) eq_refl n Hn).
Qed.

Lemma quoter_transport (b : Z) :
  is_byte b -> Forall (fun c => is_transport_char c = true) (quoter (lit "/") b).
Proof.
  intros Hb. unfold quoter, is_byte, is_transport_char in *.
  destruct (is_safe (lit "/") b) eqn:Hsafe.
  - apply Forall_cons; [now rewrite Hsafe | apply Forall_nil].
  - apply Forall_cons; [now rewrite Z.eqb_refl, orb_true_r|].
    apply Forall_cons.
    { rewrite hex_upper_safe; [reflexivity|].
      split; [apply Z.div_pos; lia | apply Z.div_lt_upper_bound; lia]. }
    apply Forall_cons; [|apply Forall_nil].
    rewrite hex_upper_safe; [reflexivity|]. apply Z.mod_pos_bound. lia.
Qed.

Lemma quoted_transport (bs : bytes) :
  Forall is_byte bs ->
  Forall (fun c => is_transport_char c = true) (List.concat (map (quoter (lit "/")) bs)).
Proof.
  induction 1 as [|b bs Hb _ IH]; [constructor|].
  cbn [map List.concat]. apply Forall_app. split; [now apply quoter_transport | exact IH].
Qed.

(** What [quote] returns is made of safe characters and percent signs. *)
Lemma quote_transport (advice encoded_message : str) :
  wf_str advice ->
  quote (PStr advice) = Ok encoded_message ->
  Forall (fun c => is_transport_char c = true) encoded_message.
Proof.
  intros Hwf Hq. destruct advice as [|ch s].
  - apply Ok_inj in Hq. subst encoded_message. constructor.
  - cbn [quote] in Hq.
    destruct (utf8_encode (ch :: s)) as [bs|e] eqn:Henc; [|discriminate Hq].
    apply Ok_inj in Hq. subst encoded_message. rewrite quote_from_bytes_eq.
    apply quoted_transport. exact (utf8_encode_bytes _ _ Hwf Henc).
Qed.

Lemma utf8_encode_char_length (ch : Z) (bs : bytes) :
  utf8_encode_char ch = Some bs -> (1 <= List.length bs <= 4)%nat.
Proof.
  unfold utf8_encode_char. intros H.
  destruct (ch <? 0x80); [apply Some_inj in H; subst bs; cbn; lia|].
  destruct (ch <? 0x800); [apply Some_inj in H; subst bs; cbn; lia|].
  destruct (is_surrogate ch); [discriminate H|].
  destruct (ch <? 0x10000); apply Some_inj in H; subst bs; cbn; lia.
Qed.

Lemma utf8_encode_from_length (object : str) (s : str) :
  forall pos bs,
    utf8_encode_from object pos s = Ok bs ->
    (List.length s <= List.length bs <= 4 * List.length s)%nat.
Proof.
  induction s as [|ch s IH]; intros pos bs Henc.
  - apply Ok_inj in Henc. subst bs. cbn. lia.
  - cbn [utf8_encode_from] in Henc.
    destruct (utf8_encode_char ch) as [b1|] eqn:Hc; [|discriminate Henc].
    destruct (utf8_encode_from object (S pos) s) as [b2|e] eqn:Hs; [|discriminate Henc].
    apply Ok_inj in Henc. subst bs. rewrite length_app. cbn [List.length].
    pose proof (utf8_encode_char_length ch b1 Hc). pose proof (IH (S pos) b2 Hs). lia.
Qed.

Lemma utf8_encode_length (s : str) (bs : bytes) :
  utf8_encode s = Ok bs ->
  (List.length s <= List.length bs <= 4 * List.length s)%nat.
Proof. apply utf8_encode_from_length. Qed.

Lemma quoted_length (bs : bytes) :
  (List.length bs <= List.length (List.concat (map (quoter (lit "/")) bs))
   <= 3 * List.length bs)%nat.
Proof.
  induction bs as [|b bs IH]; [cbn; lia|].
  cbn [map List.concat]. rewrite length_app. cbn [List.length].
  assert (Hq : (1 <= List.length (quoter (lit "/") b) <= 3)%nat).
  { unfold quoter. destruct (is_safe (lit "/") b); cbn; lia. }
  lia.
Qed.

(** X1.  The encoded message is made of unreserved characters, slashes and
    percent signs only.  In particular it holds no single quote, no space
    and no line break, so it cannot end the quoted [message='...'] argument
    of the shell command it is put into. *)
Theorem encoded_message_is_shell_safe (advice encoded_message : str) :
  wf_str advice ->
  quote (PStr advice) = Ok encoded_message ->
  Forall (fun c => is_transport_char c = true) encoded_message
  /\ ~ In (code "'") encoded_message
  /\ ~ In (code " ") encoded_message
  /\ ~ In 10 encoded_message.
Proof.
  intros Hwf Hq. pose proof (quote_transport _ _ Hwf Hq) as Hall.
  split; [exact Hall|].
  rewrite Forall_forall in Hall.
  repeat split; intros Hin; apply Hall in Hin; vm_compute in Hin; discriminate Hin.
Qed.

Lemma encoded_message_is_shell_safe_witness :
  ~ In (code "'") (lit "Don%27t%20spend%3B%20save").
Proof.
  refine (proj1 (proj2 (encoded_message_is_shell_safe
                          (lit "Don't spend; save") (lit "Don%27t%20spend%3B%20save") _ _))).
  - apply wf_str_check. reflexivity.
  - reflexivity.
Defined.

(** X2.  The encoded message is never shorter than the advice and at most
    twelve times as long (four bytes a character, three characters a byte);
    so the message is empty only for the empty advice. *)
Theorem encoded_message_length (advice encoded_message : str) :
  quote (PStr advice) = Ok encoded_message ->
  (List.length advice <= List.length encoded_message <= 12 * List.length advice)%nat
  /\ (encoded_message = [] <-> advice = []).
Proof.
  intros Hq.
  assert (Hlen : (List.length advice <= List.length encoded_message
                  <= 12 * List.length advice)%nat).
  { destruct advice as [|ch s].
    - apply Ok_inj in Hq. subst encoded_message. cbn. lia.
    - cbn [quote] in Hq.
      destruct (utf8_encode (ch :: s)) as [bs|e] eqn:Henc; [|discriminate Hq].
      apply Ok_inj in Hq. subst encoded_message. rewrite quote_from_bytes_eq.
      pose proof (utf8_encode_length _ _ Henc). pose proof (quoted_length bs). lia. }
  split; [exact Hlen|]. split.
  - intros ->. cbn [List.length] in Hlen. destruct advice; [reflexivity | cbn in Hlen; lia].
  - intros ->. apply Ok_inj in Hq. now subst.
Qed.

Lemma encoded_message_length_witness :
  (List.length (lit "a b") <= List.length (lit "a%20b") <= 12 * List.length (lit "a b"))%nat.
Proof.
  exact (proj1 (encoded_message_length (lit "a b") (lit "a%20b") eq_refl)).
Defined.

(** Decoding what [quote] returned gives back the text. *)
Lemma unquote_of_quote (advice encoded_message : str) :
  wf_str advice ->
  quote (PStr advice) = Ok encoded_message ->
  unquote encoded_message = advice.
Proof.
  intros Hwf Hq. destruct advice as [|ch s].
  - apply Ok_inj in Hq. now subst encoded_message.
  - cbn [quote] in Hq.
    destruct (utf8_encode (ch :: s)) as [bs|e] eqn:Henc; [|discriminate Hq].
    apply Ok_inj in Hq. subst encoded_message.
    pose proof (utf8_encode_bytes _ _ Hwf Henc) as Hbytes.
    rewrite quote_from_bytes_eq, (unquote_ascii _ (quoted_ascii bs Hbytes)).
    rewrite (unquote_quoted_bytes bs Hbytes).
    exact (utf8_decode_encode _ _ Hwf Henc).
Qed.

(** X3.  Two advice texts with the same encoded message are the same text:
    the encoding step loses nothing. *)
Theorem encoding_is_injective (advice1 advice2 encoded_message : str) :
  wf_str advice1 -> wf_str advice2 ->
  quote (PStr advice1) = Ok encoded_message ->
  quote (PStr advice2) = Ok encoded_message ->
  advice1 = advice2.
Proof.
  intros Hwf1 Hwf2 Hq1 Hq2.
  rewrite <- (unquote_of_quote _ _ Hwf1 Hq1). exact (unquote_of_quote _ _ Hwf2 Hq2).
Qed.

Lemma encoding_is_injective_witness : lit "a b" = lit "a b".
Proof.
  refine (encoding_is_injective (lit "a b") (lit "a b") (lit "a%20b") _ _ eq_refl eq_refl);
    apply wf_str_check; reflexivity.
Defined.

(** ** The steps of the decoder *)

Lemma steps_ok_mono {A : Type} (n m : nat) (x : result (A * str)) :
  (n <= m)%nat -> steps_ok n x -> steps_ok m x.
Proof. destruct x as [[a r]|e]; cbn [steps_ok]; [lia | trivial]. Qed.

Lemma decoder_error_class (py : interpreter) (depth : nat) (msg : string) :
  exn_class (decoder_error py depth msg) <> "OutOfSteps"%string.
Proof. unfold decoder_error. destruct (raise_fails py depth msg); discriminate. Qed.

Lemma hex4_length (s : str) (u : Z) (r : str) :
  hex4 s = Some (u, r) -> List.length s = (4 + List.length r)%nat.
Proof.
  unfold hex4. destruct s as [|a [|b [|c [|d rest]]]]; try discriminate.
  destruct (hex_value a), (hex_value b), (hex_value c), (hex_value d); try discriminate.
  intros H. apply Some_inj in H. now injection H as _ <-.
Qed.

Lemma scanstring_steps (py : interpreter) (depth fuel : nat) :
  forall acc s,
    (List.length s < fuel)%nat ->
    steps_ok (List.length s) (scanstring py depth fuel acc s).
Proof.
  induction fuel as [|fuel IH]; intros acc s Hfuel; [inversion Hfuel|].
  cbn [scanstring]. destruct s as [|c s1]; [apply decoder_error_class|].
  cbn [List.length] in *.
  destruct (c =? DQUOTE); [cbn [steps_ok]; lia|].
  destruct (c =? BACKSLASH).
  - destruct s1 as [|e s2]; [apply decoder_error_class|]. cbn [List.length] in *.
    destruct (e =? code "u").
    + destruct (hex4 s2) as [[u s3]|] eqn:Hhex; [|apply decoder_error_class].
      apply hex4_length in Hhex.
      destruct s3 as [|c3 s3']; [apply decoder_error_class|].
      destruct (is_high_surrogate u && startswith [BACKSLASH; code "u"] (c3 :: s3')
                && (6 <? Z.of_nat (List.length (c3 :: s3')))).
      * destruct (hex4 (skipn 2 (c3 :: s3'))) as [[u2 s4]|] eqn:Hhex2;
          [|apply decoder_error_class].
        apply hex4_length in Hhex2. rewrite length_skipn in Hhex2.
        destruct (is_low_surrogate u2);
          (eapply steps_ok_mono; [|apply IH]); lia.
      * eapply steps_ok_mono; [|apply IH]; lia.
    + destruct (simple_escape e); [|apply decoder_error_class].
      eapply steps_ok_mono; [|apply IH]; lia.
  - destruct (c <=? 0x1F); [apply decoder_error_class|].
    eapply steps_ok_mono; [|apply IH]; lia.
Qed.

Lemma span_digits_length (s d r : str) :
  span_digits s = (d, r) -> List.length s = (List.length d + List.length r)%nat.
Proof.
  revert d r; induction s as [|c s IH]; intros d r H; cbn [span_digits] in H.
  - injection H as <- <-. reflexivity.
  - destruct (is_digit c).
    + destruct (span_digits s) as [d0 r0]. injection H as <- <-.
      cbn [List.length]. now rewrite (IH d0 r0 eq_refl).
    + injection H as <- <-. reflexivity.
Qed.

Lemma skip_ws_length (s : str) : (List.length (skip_ws s) <= List.length s)%nat.
Proof.
  induction s as [|c s IH]; [apply Nat.le_refl|].
  cbn [skip_ws]. destruct (is_ws c); cbn [List.length]; lia.
Qed.

(** Collect the lengths of the digit runs. *)
Ltac learn_lengths :=
  repeat match goal with
         | E : span_digits ?t = (?d, ?r) |- _ =>
             apply span_digits_length in E; cbn [List.length] in E
         end.

(** A number takes at least one character. *)
Lemma match_number_length (s int frac exp r : str) :
  match_number s = Some (int, frac, exp, r) -> (List.length r < List.length s)%nat.
Proof.
  intros H. unfold match_number in H.
  repeat match type of H with
         | context [if ?b then _ else _] => destruct b
         | context [match ?x with [] => _ | _ :: _ => _ end] => is_var x; destruct x
         | context [span_digits ?t] => destruct (span_digits t) eqn:?
         end; try discriminate H.
  all: learn_lengths; injection H as <- <- <- <-; cbn [List.length] in *; lia.
Qed.

Lemma startswith_skipn (p s : str) :
  p <> [] -> startswith p s = true ->
  (List.length (skipn (List.length p) s) < List.length s)%nat.
Proof.
  intros Hp H. apply startswith_spec in H as [post ->].
  rewrite skipn_app, Nat.sub_diag, skipn_all. cbn [skipn app].
  rewrite length_app. destruct p; [contradiction | cbn [List.length]; lia].
Qed.

Lemma parse_int_class (py : interpreter) (lexeme : str) (e : exn) :
  parse_int py lexeme = Raise e -> exn_class e <> "OutOfSteps"%string.
Proof.
  unfold parse_int.
  destruct (match lexeme with
            | [] => (false, [])
            | c :: ds => if c =? code "-" then (true, ds) else (false, lexeme)
            end) as [negative ds].
  destruct ((640 <? List.length ds)%nat && (0 <? int_max_str_digits py)%nat
            && (int_max_str_digits py <? List.length ds)%nat); [|discriminate].
  intros H. injection H as <-. discriminate.
Qed.

(** With two steps a character and two to spare the descent never runs out
    of steps, and every value it reads takes at least one character. *)
Lemma decoder_steps (py : interpreter) (fuel : nat) :
  (forall depth s,
      (2 * List.length s + 1 <= fuel)%nat ->
      steps_ok (List.length s) (scan_once py fuel depth s))
  /\ (forall depth acc s,
         (2 * List.length s + 2 <= fuel)%nat ->
         steps_ok (List.length s) (parse_array_items py fuel depth acc s))
  /\ (forall depth acc s,
         (2 * List.length s + 2 <= fuel)%nat ->
         steps_ok (List.length s) (parse_object_items py fuel depth acc s)).
Proof.
  induction fuel as [|fuel [IHv [IHa IHo]]].
  { repeat split; intros; lia. }
  split; [|split].
  - intros depth s Hfuel. cbn [scan_once].
    destruct s as [|c s']; [apply decoder_error_class|].
    cbn [List.length] in Hfuel.
    destruct (c =? DQUOTE).
    { pose proof (scanstring_steps py depth (S (List.length s')) [] s' (Nat.lt_succ_diag_r _))
        as Hs.
      destruct (scanstring py depth (S (List.length s')) [] s') as [[v0 r0]|e];
        cbn [steps_ok List.length] in *; [lia | exact Hs]. }
    destruct (c =? code "{").
    { destruct depth as [|depth]; [discriminate|].
      pose proof (skip_ws_length s') as Hws.
      destruct (skip_ws s') as [|c1 r1]; [apply decoder_error_class|].
      destruct (c1 =? code "}").
      - cbn [steps_ok List.length] in *. lia.
      - eapply steps_ok_mono; [|apply IHo]; cbn [List.length] in *; lia. }
    destruct (c =? code "[").
    { destruct depth as [|depth]; [discriminate|].
      pose proof (skip_ws_length s') as Hws.
      destruct (skip_ws s') as [|c1 r1]; [apply decoder_error_class|].
      destruct (c1 =? code "]").
      - cbn [steps_ok List.length] in *. lia.
      - eapply steps_ok_mono; [|apply IHa]; cbn [List.length] in *; lia. }
    destruct (startswith (lit "null") (c :: s')) eqn:H1;
      [exact (startswith_skipn (lit "null") _ ltac:(discriminate) H1)|].
    destruct (startswith (lit "true") (c :: s')) eqn:H2;
      [exact (startswith_skipn (lit "true") _ ltac:(discriminate) H2)|].
    destruct (startswith (lit "false") (c :: s')) eqn:H3;
      [exact (startswith_skipn (lit "false") _ ltac:(discriminate) H3)|].
    destruct (match_number (c :: s')) as [[[[int frac] exp] r0]|] eqn:Hnum.
    { apply match_number_length in Hnum.
      destruct frac as [|? ?]; [destruct exp as [|? ?]|]; try exact Hnum.
      destruct (parse_int py int) as [n|e] eqn:Hint; [exact Hnum|].
      exact (parse_int_class py int e Hint). }
    destruct (startswith (lit "NaN") (c :: s')) eqn:H4;
      [exact (startswith_skipn (lit "NaN") _ ltac:(discriminate) H4)|].
    destruct (startswith (lit "Infinity") (c :: s')) eqn:H5;
      [exact (startswith_skipn (lit "Infinity") _ ltac:(discriminate) H5)|].
    destruct (startswith (lit "-Infinity") (c :: s')) eqn:H6;
      [exact (startswith_skipn (lit "-Infinity") _ ltac:(discriminate) H6)|].
    apply decoder_error_class.
  - intros depth acc s Hfuel. cbn [parse_array_items].
    pose proof (IHv depth s ltac:(lia)) as Hv.
    destruct (scan_once py fuel depth s) as [[v0 r0]|e]; [|exact Hv].
    cbn [steps_ok] in Hv. pose proof (skip_ws_length r0) as Hws.
    destruct (skip_ws r0) as [|c r1]; [apply decoder_error_class|].
    cbn [List.length] in Hws.
    destruct (c =? code "]"); [cbn [steps_ok]; lia|].
    destruct (c =? code ","); [|apply decoder_error_class].
    pose proof (skip_ws_length r1) as Hws1.
    eapply steps_ok_mono; [|apply IHa]; lia.
  - intros depth acc s Hfuel. cbn [parse_object_items].
    destruct s as [|q s1]; [apply decoder_error_class|].
    cbn [List.length] in Hfuel.
    destruct (negb (q =? DQUOTE)); [apply decoder_error_class|].
    pose proof (scanstring_steps py depth (S (List.length s1)) [] s1 (Nat.lt_succ_diag_r _))
      as Hkey.
    destruct (scanstring py depth (S (List.length s1)) [] s1) as [[key r0]|e];
      [|exact Hkey].
    cbn [steps_ok] in Hkey. pose proof (skip_ws_length r0) as Hws.
    destruct (skip_ws r0) as [|c r1]; [apply decoder_error_class|].
    cbn [List.length] in Hws.
    destruct (negb (c =? code ":")); [apply decoder_error_class|].
    pose proof (skip_ws_length r1) as Hws1.
    pose proof (IHv depth (skip_ws r1) ltac:(lia)) as Hv.
    destruct (scan_once py fuel depth (skip_ws r1)) as [[v0 r2]|e]; [|exact Hv].
    cbn [steps_ok] in Hv. pose proof (skip_ws_length r2) as Hws2.
    destruct (skip_ws r2) as [|c2 r3]; [apply decoder_error_class|].
    cbn [List.length] in Hws2.
    destruct (c2 =? code "}"); [cbn [steps_ok List.length]; lia|].
    destruct (c2 =? code ","); [|apply decoder_error_class].
    pose proof (skip_ws_length r3) as Hws3.
    eapply steps_ok_mono; [|apply IHo]; cbn [List.length]; lia.
Qed.

Lemma Raise_inj {A} (e e' : exn) : @Raise A e = Raise e' -> e = e'.
Proof. intros H. now injection H. Qed.

(** [json.loads] never runs out of the steps it hands out. *)
Lemma json_loads_steps (py : interpreter) (s : str) :
  json_loads py s <> Raise out_of_steps.
Proof.
  unfold json_loads.
  destruct (startswith [0xFEFF] s).
  { intros H. apply Raise_inj in H.
    exact (decoder_error_class _ _ _ (f_equal exn_class H)). }
  pose proof (skip_ws_length s) as Hws.
  pose proof (proj1 (decoder_steps py (2 * List.length s + 2)) (recursion_remaining py)
                (skip_ws s) ltac:(lia)) as Hsteps.
  destruct (scan_once py (2 * List.length s + 2) (recursion_remaining py) (skip_ws s))
    as [[obj r]|e].
  - destruct (skip_ws r); [discriminate|].
    intros H. apply Raise_inj in H.
    exact (decoder_error_class _ _ _ (f_equal exn_class H)).
  - cbn [steps_ok] in Hsteps. intros H. apply Raise_inj in H. subst e. now apply Hsteps.
Qed.

(** ** The limits of the interpreter *)

(** Three arrays within one another need three nested calls: with two left
    the scanner raises on entering the innermost. *)
Example nesting_beyond_the_limit :
  json_loads (Interpreter 3 (fun _ _ => None) 4300) (lit "[[[1]]]")
  = Ok (PList [PList [PList [PInt 1]]])
  /\ json_loads (Interpreter 2 (fun _ _ => None) 4300) (lit "[[[1]]]")
     = Raise (Exn "RecursionError"
                (lit "maximum recursion depth exceeded while decoding a JSON array from a unicode string")).
Proof. split; vm_compute; reflexivity. Qed.

(** An integer of 4300 digits is read, one of 4301 is refused. *)
Example integer_beyond_the_limit :
  json_loads sample_interpreter (repeat (code "7") 4300)
  = Ok (PInt (7 * ((10 ^ 4300 - 1) / 9)))
  /\ json_loads sample_interpreter (repeat (code "7") 4301)
     = Raise (Exn "ValueError"
                (lit "Exceeds the limit (4300 digits) for integer string conversion: value has 4301 digits; use sys.set_int_max_str_digits() to increase the limit")).
Proof. split; vm_compute; reflexivity. Qed.

(** A generator answer nested deeper than the interpreter allows ends the
    run with the scanner's error, and the notifier is not entered. *)
Example answer_nested_too_deep_aborts :
  let run := sample_run (with_generate (Ok (repeat (code "[") 901)) all_well) in
  fst run = Raise (nested_too_deep "array")
  /\ filter is_notify (snd run) = [].
Proof. vm_compute. split; reflexivity. Qed.

(** ** Strings decoded by json.loads *)

Lemma skip_ws_wf (s : str) : wf_str s -> wf_str (skip_ws s).
Proof.
  induction 1 as [|c s Hc Hs IH]; [constructor|].
  cbn [skip_ws]. destruct (is_ws c); [exact IH | now constructor].
Qed.

Lemma skipn_wf (n : nat) (s : str) : wf_str s -> wf_str (skipn n s).
Proof.
  revert s; induction n as [|n IH]; intros s Hs; [exact Hs|].
  destruct Hs as [|c s Hc Hs]; [constructor | now apply IH].
Qed.

Lemma span_digits_wf (s : str) : wf_str s -> wf_str (snd (span_digits s)).
Proof.
  induction 1 as [|c s Hc Hs IH]; [constructor|].
  cbn [span_digits]. destruct (is_digit c); [|now constructor].
  destruct (span_digits s) as [d r]. exact IH.
Qed.

Lemma hex_value_bound (c v : Z) : hex_value c = Some v -> 0 <= v < 16.
Proof.
  unfold hex_value. intros H.
  destruct ((48 <=? c) && (c <=? 57)) eqn:H1.
  { apply andb_true_iff in H1 as [Ha Hb]. apply Z.leb_le in Ha, Hb.
    apply (f_equal (fun o => match o with Some x => x | None => 0 end)) in H.
    cbv beta iota in H. lia. }
  destruct ((65 <=? c) && (c <=? 70)) eqn:H2.
  { apply andb_true_iff in H2 as [Ha Hb]. apply Z.leb_le in Ha, Hb.
    apply (f_equal (fun o => match o with Some x => x | None => 0 end)) in H.
    cbv beta iota in H. lia. }
  destruct ((97 <=? c) && (c <=? 102)) eqn:H3; [|discriminate H].
  apply andb_true_iff in H3 as [Ha Hb]. apply Z.leb_le in Ha, Hb.
  apply (f_equal (fun o => match o with Some x => x | None => 0 end)) in H.
  cbv beta iota in H. lia.
Qed.

Lemma hex4_wf (s : str) (u : Z) (r : str) :
  wf_str s -> hex4 s = Some (u, r) -> 0 <= u < 65536 /\ wf_str r.
Proof.
  intros Hs H. unfold hex4 in H.
  destruct s as [|a [|b [|c [|d rest]]]]; try discriminate H.
  destruct (hex_value a) as [va|] eqn:Ha; [|discriminate H].
  destruct (hex_value b) as [vb|] eqn:Hb; [|discriminate H].
  destruct (hex_value c) as [vc|] eqn:Hc; [|discriminate H].
  destruct (hex_value d) as [vd|] eqn:Hd; [|discriminate H].
  apply hex_value_bound in Ha, Hb, Hc, Hd.
  apply (f_equal (fun o => match o with Some x => x | None => (0, []) end)) in H.
  cbv beta iota in H.
  assert (Hu : u = 4096 * va + 256 * vb + 16 * vc + vd) by congruence.
  assert (Hr : r = rest) by congruence. subst r.
  split; [lia|]. exact (skipn_wf 4 _ Hs).
Qed.

(** Joining a surrogate pair gives a code point of the supplementary
    planes. *)
Lemma join_surrogates_wf (hi lo : Z) : wf_code_point (join_surrogates hi lo).
Proof.
  unfold join_surrogates, wf_code_point.
  change 0x3FF with (Z.ones 10).
  rewrite !Z.land_ones by lia. rewrite Z.shiftl_mul_pow2 by lia.
  pose proof (Z.mod_pos_bound hi (2 ^ 10) ltac:(lia)) as Hhi.
  pose proof (Z.mod_pos_bound lo (2 ^ 10) ltac:(lia)) as Hlo.
  rewrite (lor_low_bits (hi mod 2 ^ 10 * 2 ^ 10) (lo mod 2 ^ 10) 10); [|lia|exact Hlo|].
  - change (2 ^ 10) with 1024 in *. lia.
  - rewrite Z.land_ones by lia. apply Z.mod_mul. lia.
Qed.

Lemma simple_escape_wf (c x : Z) : simple_escape c = Some x -> wf_code_point x.
Proof.
  unfold simple_escape, wf_code_point.
  repeat match goal with
         | |- context [if ?b then _ else _] => destruct b
         end; intros H; try discriminate H;
    apply (f_equal (fun o => match o with Some v => v | None => 0 end)) in H;
    cbv beta iota in H; subst x; vm_compute; split; congruence.
Qed.

(** [scanstring] keeps to well-formed characters. *)
Lemma scanstring_wf (py : interpreter) (depth fuel : nat) :
  forall acc s v r,
    wf_str acc -> wf_str s -> scanstring py depth fuel acc s = Ok (v, r) ->
    wf_str v /\ wf_str r.
Proof.
  induction fuel as [|fuel IH]; intros acc s v r Hacc Hs H; [discriminate H|].
  cbn [scanstring] in H. destruct Hs as [|c s1 Hc Hs1]; [discriminate H|].
  destruct (c =? DQUOTE).
  { apply Ok_inj in H. assert (v = rev acc) by congruence. assert (r = s1) by congruence.
    subst. split; [now apply Forall_rev | exact Hs1]. }
  destruct (c =? BACKSLASH).
  - destruct Hs1 as [|e s2 He Hs2]; [discriminate H|].
    destruct (e =? code "u").
    + destruct (hex4 s2) as [[u s3]|] eqn:Hhex; [|discriminate H].
      destruct (hex4_wf _ _ _ Hs2 Hhex) as [Hu Hs3].
      assert (Huwf : wf_code_point u) by (unfold wf_code_point; lia).
      destruct s3 as [|c3 s3']; [discriminate H|].
      destruct (is_high_surrogate u && startswith [BACKSLASH; code "u"] (c3 :: s3')
                && (6 <? Z.of_nat (List.length (c3 :: s3')))).
      * destruct (hex4 (skipn 2 (c3 :: s3'))) as [[u2 s4]|] eqn:Hhex2; [|discriminate H].
        destruct (hex4_wf _ _ _ (skipn_wf 2 _ Hs3) Hhex2) as [Hu2 Hs4].
        destruct (is_low_surrogate u2).
        -- apply (IH _ _ _ _ (Forall_cons _ (join_surrogates_wf u u2) Hacc) Hs4 H).
        -- apply (IH _ _ _ _ (Forall_cons _ Huwf Hacc) Hs3 H).
      * apply (IH _ _ _ _ (Forall_cons _ Huwf Hacc) Hs3 H).
    + destruct (simple_escape e) as [x|] eqn:Hx; [|discriminate H].
      apply (IH _ _ _ _ (Forall_cons _ (simple_escape_wf _ _ Hx) Hacc) Hs2 H).
  - destruct (c <=? 0x1F); [discriminate H|].
    apply (IH _ _ _ _ (Forall_cons _ Hc Hacc) Hs1 H).
Qed.

Lemma span_digits_rest_wf (s d r : str) :
  wf_str s -> span_digits s = (d, r) -> wf_str r.
Proof.
  intros Hs H. pose proof (span_digits_wf s Hs) as Hr. now rewrite H in Hr.
Qed.

Lemma wf_tail (c : Z) (s : str) : wf_str (c :: s) -> wf_str s.
Proof. intros H. now inversion H. Qed.

(** Collect the well-formedness of the tails and of the rests of digit runs. *)
Ltac learn_wf :=
  repeat match goal with
         | H : wf_str (_ :: ?t) |- _ =>
             lazymatch goal with
             | _ : wf_str t |- _ => fail
             | _ => pose proof (wf_tail _ _ H)
             end
         | E : span_digits ?t = (_, ?r), Ht : wf_str ?t |- _ =>
             lazymatch goal with
             | _ : wf_str r |- _ => fail
             | _ => pose proof (span_digits_rest_wf _ _ _ Ht E)
             end
         end.

(** What follows a number is part of the text it was read from. *)
Lemma match_number_wf (s int frac exp r : str) :
  wf_str s -> match_number s = Some (int, frac, exp, r) -> wf_str r.
Proof.
  intros Hs H. unfold match_number in H.
  repeat match type of H with
         | context [if ?b then _ else _] => destruct b
         | context [match ?x with [] => _ | _ :: _ => _ end] => is_var x; destruct x
         | context [span_digits ?t] => destruct (span_digits t) eqn:?
         end; try discriminate H.
  all: learn_wf; injection H as <- <- <- <-; assumption.
Qed.

Lemma dict_set_values (k : str) (v : pyval) (d : list (str * pyval)) :
  str_value_wf v ->
  Forall (fun kv => str_value_wf (snd kv)) d ->
  Forall (fun kv => str_value_wf (snd kv)) (dict_set k v d).
Proof.
  intros Hv. induction 1 as [|[k' v'] d Hkv Hd IH]; cbn [dict_set].
  - now repeat constructor.
  - destruct (str_eqb k k'); constructor; assumption.
Qed.

Lemma dict_get_values (k : str) (v : pyval) (d : list (str * pyval)) :
  Forall (fun kv => str_value_wf (snd kv)) d ->
  dict_get k d = Some v -> str_value_wf v.
Proof.
  induction 1 as [|[k' v'] d Hkv Hd IH]; cbn [dict_get]; [discriminate|].
  destruct (str_eqb k k'); [|exact IH].
  intros H. injection H as <-. exact Hkv.
Qed.

(** The decoder keeps to well-formed characters: what it leaves unread is
    well formed, and so are the strings it returns, on their own or as the
    values of an object. *)
Lemma decoder_wf (py : interpreter) (fuel : nat) :
  (forall depth s v r,
      wf_str s -> scan_once py fuel depth s = Ok (v, r) -> str_value_wf v /\ wf_str r)
  /\ (forall depth acc s v r,
         wf_str s -> parse_array_items py fuel depth acc s = Ok (v, r) ->
         wf_str r /\ exists l, v = PList l)
  /\ (forall depth acc s v r,
         wf_str s -> Forall (fun kv => str_value_wf (snd kv)) acc ->
         parse_object_items py fuel depth acc s = Ok (v, r) ->
         wf_str r /\ exists d, v = PDict d /\ Forall (fun kv => str_value_wf (snd kv)) d).
Proof.
  induction fuel as [|fuel [IHv [IHa IHo]]].
  { repeat split; intros; discriminate. }
  split; [|split].
  - intros depth s v r Hs H. cbn [scan_once] in H.
    destruct s as [|c s']; [discriminate H|]. pose proof (wf_tail _ _ Hs) as Hs'.
    destruct (c =? DQUOTE).
    { destruct (scanstring py depth (S (List.length s')) [] s') as [[v0 r0]|e] eqn:Hscan;
        [|discriminate H].
      injection H as <- <-.
      exact (scanstring_wf _ _ _ _ _ _ _ (Forall_nil _) Hs' Hscan). }
    destruct (c =? code "{").
    { destruct depth as [|depth]; [discriminate H|].
      pose proof (skip_ws_wf _ Hs') as Hws.
      destruct (skip_ws s') as [|c1 r1]; [discriminate H|].
      destruct (c1 =? code "}").
      - injection H as <- <-. split; [exact I | exact (wf_tail _ _ Hws)].
      - destruct (IHo _ _ _ _ _ Hws (Forall_nil _) H) as [Hr [d [-> _]]].
        split; [exact I | exact Hr]. }
    destruct (c =? code "[").
    { destruct depth as [|depth]; [discriminate H|].
      pose proof (skip_ws_wf _ Hs') as Hws.
      destruct (skip_ws s') as [|c1 r1]; [discriminate H|].
      destruct (c1 =? code "]").
      - injection H as <- <-. split; [exact I | exact (wf_tail _ _ Hws)].
      - destruct (IHa _ _ _ _ _ Hws H) as [Hr [l ->]]. split; [exact I | exact Hr]. }
    destruct (startswith (lit "null") (c :: s'));
      [injection H as <- <-; split; [exact I | exact (skipn_wf 4 _ Hs)]|].
    destruct (startswith (lit "true") (c :: s'));
      [injection H as <- <-; split; [exact I | exact (skipn_wf 4 _ Hs)]|].
    destruct (startswith (lit "false") (c :: s'));
      [injection H as <- <-; split; [exact I | exact (skipn_wf 5 _ Hs)]|].
    destruct (match_number (c :: s')) as [[[[int frac] exp] r0]|] eqn:Hnum.
    { pose proof (match_number_wf _ _ _ _ _ Hs Hnum) as Hr0.
      destruct frac as [|? ?]; [destruct exp as [|? ?]|];
        try (destruct (parse_int py int) as [n|e]; [|discriminate H]);
        injection H as <- <-; (split; [exact I | exact Hr0]). }
    destruct (startswith (lit "NaN") (c :: s'));
      [injection H as <- <-; split; [exact I | exact (skipn_wf 3 _ Hs)]|].
    destruct (startswith (lit "Infinity") (c :: s'));
      [injection H as <- <-; split; [exact I | exact (skipn_wf 8 _ Hs)]|].
    destruct (startswith (lit "-Infinity") (c :: s'));
      [injection H as <- <-; split; [exact I | exact (skipn_wf 9 _ Hs)]|].
    discriminate H.
  - intros depth acc s v r Hs H. cbn [parse_array_items] in H.
    destruct (scan_once py fuel depth s) as [[v0 r0]|e] eqn:Hscan; [|discriminate H].
    destruct (IHv _ _ _ _ Hs Hscan) as [_ Hr0].
    pose proof (skip_ws_wf _ Hr0) as Hws.
    destruct (skip_ws r0) as [|c r1]; [discriminate H|].
    pose proof (wf_tail _ _ Hws) as Hr1.
    destruct (c =? code "]").
    { injection H as <- <-. split; [exact Hr1 | now eexists]. }
    destruct (c =? code ","); [|discriminate H].
    exact (IHa _ _ _ _ _ (skip_ws_wf _ Hr1) H).
  - intros depth acc s v r Hs Hacc H. cbn [parse_object_items] in H.
    destruct s as [|q s1]; [discriminate H|]. pose proof (wf_tail _ _ Hs) as Hs1.
    destruct (negb (q =? DQUOTE)); [discriminate H|].
    destruct (scanstring py depth (S (List.length s1)) [] s1) as [[key r0]|e] eqn:Hkey;
      [|discriminate H].
    destruct (scanstring_wf _ _ _ _ _ _ _ (Forall_nil _) Hs1 Hkey) as [_ Hr0].
    pose proof (skip_ws_wf _ Hr0) as Hws.
    destruct (skip_ws r0) as [|c r1]; [discriminate H|].
    pose proof (wf_tail _ _ Hws) as Hr1.
    destruct (negb (c =? code ":")); [discriminate H|].
    destruct (scan_once py fuel depth (skip_ws r1)) as [[v0 r2]|e] eqn:Hval;
      [|discriminate H].
    destruct (IHv _ _ _ _ (skip_ws_wf _ Hr1) Hval) as [Hv0 Hr2].
    pose proof (skip_ws_wf _ Hr2) as Hws2.
    destruct (skip_ws r2) as [|c2 r3]; [discriminate H|].
    pose proof (wf_tail _ _ Hws2) as Hr3.
    pose proof (dict_set_values key v0 acc Hv0 Hacc) as Hset.
    destruct (c2 =? code "}").
    { injection H as <- <-. split; [exact Hr3 | now eexists]. }
    destruct (c2 =? code ","); [|discriminate H].
    exact (IHo _ _ _ _ _ (skip_ws_wf _ Hr3) Hset H).
Qed.

(** A string that [json.loads] hands out as the value of a key of the
    top-level object is well formed when the text was. *)
Lemma json_loads_member_wf (py : interpreter) (resp : str)
      (items : list (str * pyval)) (k s : str) :
  wf_str resp ->
  json_loads py resp = Ok (PDict items) ->
  dict_get k items = Some (PStr s) ->
  wf_str s.
Proof.
  intros Hwf Hload Hget. unfold json_loads in Hload.
  destruct (startswith [0xFEFF] resp); [discriminate Hload|].
  destruct (scan_once py (2 * List.length resp + 2) (recursion_remaining py) (skip_ws resp))
    as [[obj r]|e] eqn:Hscan; [|discriminate Hload].
  destruct (skip_ws r); [|discriminate Hload].
  injection Hload as ->.
  assert (Hvals : Forall (fun kv => str_value_wf (snd kv)) items).
  { remember (2 * List.length resp + 2)%nat as fuel eqn:Hfuel. clear Hfuel.
    remember (recursion_remaining py) as depth eqn:Hdepth. clear Hdepth.
    pose proof (skip_ws_wf _ Hwf) as Hws.
    destruct fuel as [|fuel]; [discriminate Hscan|].
    cbn [scan_once] in Hscan.
    destruct (skip_ws resp) as [|c s']; [discriminate Hscan|].
    pose proof (wf_tail _ _ Hws) as Hs'.
    destruct (c =? DQUOTE).
    { destruct (scanstring py depth (S (List.length s')) [] s') as [[v0 r0]|e];
        discriminate Hscan. }
    destruct (c =? code "{").
    { destruct depth as [|depth]; [discriminate Hscan|].
      pose proof (skip_ws_wf _ Hs') as Hws'.
      destruct (skip_ws s') as [|c1 r1]; [discriminate Hscan|].
      destruct (c1 =? code "}").
      - injection Hscan as <- _. constructor.
      - destruct (proj2 (proj2 (decoder_wf py fuel)) _ _ _ _ _ Hws' (Forall_nil _) Hscan)
          as [_ [d [Hd Hall]]].
        injection Hd as <-. exact Hall. }
    destruct (c =? code "[").
    { destruct depth as [|depth]; [discriminate Hscan|].
      pose proof (skip_ws_wf _ Hs') as Hws'.
      destruct (skip_ws s') as [|c1 r1]; [discriminate Hscan|].
      destruct (c1 =? code "]"); [discriminate Hscan|].
      destruct (proj1 (proj2 (decoder_wf py fuel)) _ _ _ _ _ Hws' Hscan) as [_ [l Hl]].
      discriminate Hl. }
    repeat match type of Hscan with
           | context [if ?b then _ else _] => destruct b
           | context [match_number ?t] =>
               destruct (match_number t) as [[[[? [|? ?]] [|? ?]] ?]|]
           | context [parse_int ?p ?t] => destruct (parse_int p t)
           end; discriminate Hscan. }
  exact (dict_get_values k (PStr s) items Hvals Hget).
Qed.

(** ** Runs that reach the notifier *)

(** When [send] returns, the key was resolved and every recipient of the
    list has a delivered attempt, in list order; the value returned is the
    response to the last one. *)
Lemma send_to_ok (W : world) (ps : list str) (m : str) (tb : Secret) (h : trace) (v : str) :
  fst (send_to W ps m tb h) = Ok v ->
  exists key d,
    snd (send_to W ps m tb h) = (Plaintext tb, Ok key) :: d
    /\ map fst d = map (fun p => curl_call p m key) ps
    /\ forallb delivered d = true
    /\ exists d0 c, d = d0 ++ [(c, Ok v)].
Proof.
  intros Hv. destruct (W h (Plaintext tb)) as [key|e] eqn:Hkey.
  - pose proof (send_to_outcome W ps m tb h key Hkey) as Hout. cbv zeta in Hout.
    pose proof (send_to_deliveries W ps m tb h key Hkey) as Hdel.
    pose proof (send_loop_run W m key ps (h ++ [(Plaintext tb, Ok key)]) None) as Hrun.
    apply loop_run_calls in Hrun as [_ Hcalls]. rewrite <- Hdel in Hcalls.
    assert (Hsnd : snd (send_to W ps m tb h)
                   = (Plaintext tb, Ok key) :: deliveries (snd (send_to W ps m tb h))).
    { rewrite Hdel. rewrite send_to_eq, Hkey. reflexivity. }
    set (d := deliveries _) in *. clearbody d. rewrite Hv in Hout.
    destruct Hout as [[_ [_ Hr]]
                     | [[ps0 [pl [d0 [resp [_ [Hd [Hlen [Hall Hr]]]]]]]]
                       | [d0 [p [a [_ [_ [_ [_ Hr]]]]]]]]]; try discriminate Hr.
    exists key, d. split; [exact Hsnd|]. split.
    { rewrite Hcalls, Hlen. now rewrite firstn_all. }
    split; [exact Hall|]. exists d0, (curl_call pl m key). congruence.
  - rewrite (send_to_no_key W ps m tb h e Hkey) in Hv. discriminate Hv.
Qed.

Section AfterGenerate.

Variable W : world.
Variable py : interpreter.
Variables apiKey sheet connection hftoken openai textBelt : Secret.
Variables database collection : str.

(** A run in which the generator answered: the six stages completed, and
    the run goes on with [send] exactly when the answer could be encoded. *)
Lemma run_after_generate (h : trace) (g resp : str) :
  In (Generate g openai connection, Ok resp)
     (snd (run_pipeline W py apiKey sheet connection hftoken openai textBelt
             database collection h)) ->
  exists o1 o2 o3 o4,
    let pre := completed apiKey sheet connection hftoken openai database collection
                 [o1; o2; o3; o4; g; resp] in
    match encode_advice py resp with
    | Raise e =>
        run_pipeline W py apiKey sheet connection hftoken openai textBelt
          database collection h = (Raise e, pre)
    | Ok encoded_message =>
        run_pipeline W py apiKey sheet connection hftoken openai textBelt
          database collection h
        = (fst (send_to W phone_numbers encoded_message textBelt (h ++ pre)),
           pre ++ snd (send_to W phone_numbers encoded_message textBelt (h ++ pre)))
    end.
Proof.
  pose proof (run_pipeline_run W py apiKey sheet connection hftoken openai textBelt
                database collection h) as Hrun.
  rewrite (surjective_pairing (run_pipeline W py apiKey sheet connection hftoken openai
                                 textBelt database collection h)).
  set (r := fst _) in *. set (t := snd _) in *. clearbody r t.
  intros Hin.
  destruct Hrun as [outs c e Hc HW _ | o1 o2 o3 o4 o5 o6 e _ He
                   | o1 o2 o3 o4 o5 o6 msg r d _ He Hsend].
  - destruct outs as [|o1 [|o2 [|o3 [|o4 [|o5 [|o6 outs]]]]]];
      cbn [next_call] in Hc; try discriminate Hc; injection Hc as <-; explicit_trace.
    all: members Hin; discriminate Hin.
  - explicit_trace. members Hin; try discriminate Hin. injection Hin as <- <-.
    exists o1, o2, o3, o4. cbv zeta. rewrite He. reflexivity.
  - unfold send in Hsend.
    assert (Heq : g = o5 /\ resp = o6).
    { explicit_trace. members Hin; try discriminate Hin.
      - now injection Hin as <- <-.
      - apply (f_equal snd) in Hsend. cbn [snd] in Hsend. rewrite <- Hsend in Hin.
        apply send_to_stage_notify in Hin. discriminate Hin. }
    destruct Heq as [-> ->]. exists o1, o2, o3, o4. cbv zeta. rewrite He.
    now rewrite Hsend.
Qed.

End AfterGenerate.




(** The encoding step succeeds exactly on an object whose advice is a
    string that [quote] accepts. *)
Lemma encode_advice_ok (py : interpreter) (resp encoded_message : str) :
  encode_advice py resp = Ok encoded_message
  <-> exists items advice,
      json_loads py resp = Ok (PDict items)
      /\ dict_get (lit "advice") items = Some (PStr advice)
      /\ quote (PStr advice) = Ok encoded_message.
Proof.
  unfold encode_advice. split.
  - destruct (json_loads py resp) as [loaded|e]; [|discriminate].
    destruct loaded; cbn [py_get]; try discriminate.
    destruct (dict_get (lit "advice") items) as [v|] eqn:Hget; [|discriminate].
    destruct v; try discriminate. intros Hq. now exists items, s.
  - intros [items [advice [-> [Hget Hq]]]]. cbn [py_get]. now rewrite Hget.
Qed.

Section NotifierEntry.

Variable W : world.
Variable py : interpreter.
Variables apiKey sheet connection hftoken openai textBelt : Secret.
Variables database collection : str.


(** X7.  What is sent is the advice: in a run whose generator answered with
    well-formed text, the message of every delivery attempt percent-decodes
    to the string held by the [advice] field of that answer, and the attempt
    goes to one of the two numbers. *)
Theorem delivered_message_decodes_to_advice (h : trace) :
  let t := snd (run_pipeline W py apiKey sheet connection hftoken openai textBelt
                  database collection h) in
  forall g resp,
    wf_str resp ->
    In (Generate g openai connection, Ok resp) t ->
    forall ev, In ev (deliveries t) ->
      exists items advice encoded_message p key,
        json_loads py resp = Ok (PDict items)
        /\ dict_get (lit "advice") items = Some (PStr advice)
        /\ fst ev = curl_call p encoded_message key
        /\ In p phone_numbers
        /\ unquote encoded_message = advice.
Proof.
  cbv zeta. intros g resp Hwf Hin ev Hev.
  destruct (run_after_generate W py apiKey sheet connection hftoken openai textBelt
              database collection h g resp Hin) as [o1 [o2 [o3 [o4 Hrun]]]].
  cbv zeta in Hrun.
  destruct (encode_advice py resp) as [m|e0] eqn:Henc; rewrite Hrun in Hev; cbn [snd] in Hev.
  - pose proof (proj1 (encode_advice_ok py resp m) Henc)
      as [items [advice [Hload [Hget Hq]]]].
    explicit_trace. cbn [deliveries filter is_delivery fst] in Hev.
    match type of Hev with
    | In _ (filter is_delivery ?d) => fold (deliveries d) in Hev
    end.
    apply send_to_delivery_calls in Hev as [p [key [Hp [_ Hcall]]]].
    exists items, advice, m, p, key. repeat split; try assumption.
    apply unquote_of_quote; [|exact Hq].
    exact (json_loads_member_wf py resp items (lit "advice") advice Hwf Hload Hget).
  - explicit_trace. destruct Hev.
Qed.

End NotifierEntry.

(** X6.  A string that [json.loads] returns as the advice of a well-formed
    answer is itself well formed: the decoder copies characters, decodes
    escapes below U+10000 and joins surrogate pairs into the supplementary
    planes, never above U+10FFFF. *)
Theorem decoded_advice_is_well_formed (py : interpreter) (resp : str)
        (items : list (str * pyval)) (advice : str) :
  wf_str resp ->
  json_loads py resp = Ok (PDict items) ->
  dict_get (lit "advice") items = Some (PStr advice) ->
  wf_str advice.
Proof. apply json_loads_member_wf. Qed.

(** ** Whole runs *)

Lemma two_deliveries (d : trace) (p1 p2 m key v : str) :
  map fst d = map (fun p => curl_call p m key) [p1; p2] ->
  forallb delivered d = true ->
  (exists d0 c, d = d0 ++ [(c, Ok v)]) ->
  exists r1,
    d = [(curl_call p1 m key, Ok r1); (curl_call p2 m key, Ok v)]
    /\ contains (lit "success") r1 = true
    /\ contains (lit "success") v = true.
Proof.
  intros Hcalls Hall [d0 [c Hlast]].
  destruct d as [|[c1 a1] [|[c2 a2] [|x d']]]; try discriminate Hcalls.
  cbn [map fst] in Hcalls. injection Hcalls as -> ->.
  cbn [forallb] in Hall. rewrite andb_true_r in Hall.
  apply andb_true_iff in Hall as [H1 H2]. unfold delivered in H1, H2. cbn [snd] in H1, H2.
  destruct a1 as [r1|e1]; [|discriminate H1].
  destruct d0 as [|y [|z d0']]; [discriminate Hlast| |].
  - injection Hlast as _ _ ->. exists r1. repeat split; assumption.
  - destruct d0'; discriminate Hlast.
Qed.

Lemma filter_none {A} (f : A -> bool) (l : list A) :
  (forall x, In x l -> f x = false) -> filter f l = [].
Proof.
  induction l as [|x l IH]; intros H; [reflexivity|].
  cbn [filter]. rewrite (H x (or_introl eq_refl)). apply IH.
  intros y Hy. apply H. now right.
Qed.

Section WholeRuns.

Variable W : world.
Variable py : interpreter.
Variables apiKey sheet connection hftoken openai textBelt : Secret.
Variables database collection : str.

(** A run that returns went through all of its calls. *)
Lemma run_ok_complete (h : trace) (v : str) :
  fst (run_pipeline W py apiKey sheet connection hftoken openai textBelt
         database collection h) = Ok v ->
  exists o1 o2 o3 o4 o5 o6 encoded_message key r1,
    snd (run_pipeline W py apiKey sheet connection hftoken openai textBelt
           database collection h)
    = complete_run apiKey sheet connection hftoken openai textBelt database
        collection o1 o2 o3 o4 o5 o6 encoded_message key r1 v
    /\ encode_advice py o6 = Ok encoded_message
    /\ contains (lit "success") r1 = true
    /\ contains (lit "success") v = true.
Proof.
  pose proof (run_pipeline_run W py apiKey sheet connection hftoken openai textBelt
                database collection h) as Hrun.
  set (r := fst _) in *. set (t := snd _) in *. clearbody r t.
  destruct Hrun as [outs c e Hc HW _ | o1 o2 o3 o4 o5 o6 e _ He
                   | o1 o2 o3 o4 o5 o6 msg r d _ He Hsend]; try discriminate.
  unfold send in Hsend. set (h' := h ++ _) in Hsend.
  assert (Hr : fst (send_to W phone_numbers msg textBelt h') = r) by now rewrite Hsend.
  assert (Hd : snd (send_to W phone_numbers msg textBelt h') = d) by now rewrite Hsend.
  clearbody h'. clear Hsend. explicit_trace.
  intros Hv. rewrite <- Hr in Hv.
  destruct (send_to_ok W _ _ _ _ _ Hv) as [key [d' [Hsnd [Hcalls [Hall Hlast]]]]].
  destruct (two_deliveries d' _ _ msg key v Hcalls Hall Hlast) as [r1 [Hd' [H1 H2]]].
  exists o1, o2, o3, o4, o5, o6, msg, key, r1.
  rewrite <- Hd, Hsnd, Hd'. repeat split; assumption.
Qed.

(** X8.  A run returns a value exactly when nothing at all went wrong: the
    six stages answered, the advice was encoded, the key was resolved and
    both numbers have an attempt whose response carries the marker.  The
    value returned is the response to the second number, so it always
    contains the text [success]. *)
Theorem run_returns_iff_everything_succeeded (h : trace) (v : str) :
  let r := fst (run_pipeline W py apiKey sheet connection hftoken openai textBelt
                  database collection h) in
  let t := snd (run_pipeline W py apiKey sheet connection hftoken openai textBelt
                  database collection h) in
  r = Ok v
  <-> exists o1 o2 o3 o4 o5 o6 encoded_message key r1,
      t = complete_run apiKey sheet connection hftoken openai textBelt database
            collection o1 o2 o3 o4 o5 o6 encoded_message key r1 v
      /\ encode_advice py o6 = Ok encoded_message
      /\ contains (lit "success") r1 = true
      /\ contains (lit "success") v = true.
Proof.
  cbv zeta. split; [apply run_ok_complete|].
  pose proof (run_pipeline_run W py apiKey sheet connection hftoken openai textBelt
                database collection h) as Hrun.
  set (r := fst _) in *. set (t := snd _) in *. clearbody r t.
  destruct Hrun as [outs c e Hc HW _ | o1 o2 o3 o4 o5 o6 e _ He
                   | o1 o2 o3 o4 o5 o6 msg r d _ He Hsend].
  - intros [p1 [p2 [p3 [p4 [p5 [p6 [m [key [r1 [Ht _]]]]]]]]]].
    destruct outs as [|o1 [|o2 [|o3 [|o4 [|o5 [|o6 outs]]]]]];
      cbn [next_call] in Hc; try discriminate Hc; injection Hc as <-; explicit_trace;
      discriminate Ht.
  - intros [p1 [p2 [p3 [p4 [p5 [p6 [m [key [r1 [Ht _]]]]]]]]]].
    explicit_trace. discriminate Ht.
  - unfold send in Hsend. set (h' := h ++ _) in Hsend.
    assert (Hr : fst (send_to W phone_numbers msg textBelt h') = r) by now rewrite Hsend.
    assert (Hd : snd (send_to W phone_numbers msg textBelt h') = d) by now rewrite Hsend.
    clearbody h'. clear Hsend. explicit_trace.
    intros [p1 [p2 [p3 [p4 [p5 [p6 [m [key [r1 [Ht [_ [H1 H2]]]]]]]]]]]].
    unfold complete_run in Ht.
    do 6 (apply (f_equal (@tl _)) in Ht; cbn [tl] in Ht). rename Ht into Hd'.
    assert (Hlen : List.length (deliveries (snd (send_to W phone_numbers msg textBelt h')))
                   = List.length phone_numbers) by (rewrite Hd, Hd'; reflexivity).
    assert (Hall : forallb delivered
                     (deliveries (snd (send_to W phone_numbers msg textBelt h'))) = true).
    { rewrite Hd, Hd'. cbn [deliveries filter is_delivery fst curl_call forallb].
      unfold delivered. cbn [snd]. now rewrite H1, H2. }
    destruct (send_to_all_delivered W phone_numbers msg textBelt h'
                ltac:(discriminate) Hlen Hall)
      as [key' [ps0 [pl [d0 [resp [_ [Hsnd Hfst]]]]]]].
    rewrite <- Hr, Hfst. f_equal.
    rewrite Hd, Hd' in Hsnd. injection Hsnd as _ Hsnd.
    destruct d0 as [|y [|z d0']]; [discriminate Hsnd| |].
    * now injection Hsnd as _ _ ->.
    * destruct d0'; discriminate Hsnd.
Qed.


(** X10.  The write to the ledger is not undone and not repeated.  A run
    that fails in fetch, filter or categorize has written nothing; a run
    that reached the read, the generator or the notifier has made one write,
    which succeeded and stays, whatever happens afterwards, also when the
    run raises. *)
Theorem failure_does_not_undo_the_write (h : trace) :
  let t := snd (run_pipeline W py apiKey sheet connection hftoken openai textBelt
                  database collection h) in
  (forall c e,
      In (c, Raise e) t ->
      stage_of c = StFetch \/ stage_of c = StFilter \/ stage_of c = StCategorize ->
      filter is_persist t = [])
  /\ (forall ev,
        In ev t ->
        stage_of (fst ev) = StRetrieve \/ stage_of (fst ev) = StGenerate
        \/ stage_of (fst ev) = StNotify ->
        exists batch ack,
          filter is_persist t
          = [(WriteMongo batch connection database collection, Ok ack)]).
Proof.
  cbv zeta.
  pose proof (run_pipeline_run W py apiKey sheet connection hftoken openai textBelt
                database collection h) as Hrun.
  set (r := fst _) in *. set (t := snd _) in *. clearbody r t.
  assert (Hsend : forall m h', filter is_persist (snd (send_to W phone_numbers m textBelt h'))
                               = []).
  { intros m h'. apply filter_none. intros ev Hin.
    apply send_to_stage_notify in Hin. unfold is_persist.
    destruct (fst ev); try discriminate Hin; reflexivity. }
  destruct Hrun as [outs c e Hc HW _ | o1 o2 o3 o4 o5 o6 e _ He
                   | o1 o2 o3 o4 o5 o6 msg r d _ He Hd].
  - destruct outs as [|o1 [|o2 [|o3 [|o4 [|o5 [|o6 outs]]]]]];
      cbn [next_call] in Hc; try discriminate Hc; injection Hc as <-; explicit_trace.
    all: split;
      [ intros c0 e0 Hin Hst; members Hin; try discriminate Hin;
        injection Hin as <- <-; first [reflexivity | destruct Hst as [Hst|[Hst|Hst]];
                                                     discriminate Hst]
      | intros ev Hin Hst; members Hin; subst ev;
        first [ destruct Hst as [Hst|[Hst|Hst]]; discriminate Hst
              | eexists; eexists; reflexivity ] ].
  - explicit_trace. split.
    + intros c0 e0 Hin _. members Hin; discriminate Hin.
    + intros ev _ _. eexists; eexists; reflexivity.
  - unfold send in Hd. apply (f_equal snd) in Hd. cbn [snd] in Hd.
    explicit_trace. split.
    + intros c0 e0 Hin Hst. members Hin; try discriminate Hin.
      rewrite <- Hd in Hin. apply send_to_stage_notify in Hin. cbn [fst] in Hin.
      destruct Hst as [Hst|[Hst|Hst]]; congruence.
    + intros ev _ _. cbn [filter is_persist fst]. rewrite <- Hd, Hsend.
      eexists; eexists; reflexivity.
Qed.

(** X11.  Of the six secrets a run is given, only the TextBelt key is ever
    resolved to plaintext, at most once, and only after the advice has been
    encoded. *)
Theorem only_the_textbelt_key_is_resolved (h : trace) :
  let t := snd (run_pipeline W py apiKey sheet connection hftoken openai textBelt
                  database collection h) in
  (List.length (filter is_key_lookup t) <= 1)%nat
  /\ forall s a,
      In (Plaintext s, a) t ->
      s = textBelt
      /\ exists g resp encoded_message,
          In (Generate g openai connection, Ok resp) t
          /\ encode_advice py resp = Ok encoded_message.
Proof.
  cbv zeta.
  pose proof (run_pipeline_run W py apiKey sheet connection hftoken openai textBelt
                database collection h) as Hrun.
  set (r := fst _) in *. set (t := snd _) in *. clearbody r t.
  destruct Hrun as [outs c e Hc HW _ | o1 o2 o3 o4 o5 o6 e _ He
                   | o1 o2 o3 o4 o5 o6 msg r d _ He Hd].
  - destruct outs as [|o1 [|o2 [|o3 [|o4 [|o5 [|o6 outs]]]]]];
      cbn [next_call] in Hc; try discriminate Hc; injection Hc as <-; explicit_trace.
    all: split; [cbn; lia | intros s a Hin; members Hin; discriminate Hin].
  - explicit_trace. split; [cbn; lia | intros s a Hin; members Hin; discriminate Hin].
  - unfold send in Hd. apply (f_equal snd) in Hd. cbn [snd] in Hd.
    rewrite send_to_eq in Hd. explicit_trace.
    assert (Hloop : forall key h', filter is_key_lookup
                                     (snd (send_loop W phone_numbers msg key None h')) = []
                                   /\ forall s a, ~ In (Plaintext s, a)
                                                     (snd (send_loop W phone_numbers msg key
                                                             None h'))).
    { intros key h'.
      pose proof (send_loop_run W msg key phone_numbers h' None) as Hrun.
      apply loop_run_calls in Hrun as [_ Hcalls].
      set (l := snd _) in *. clearbody l. split.
      - apply filter_none. intros ev Hin. apply (in_map fst) in Hin.
        rewrite Hcalls in Hin. apply in_map_iff in Hin as [p [Hp _]].
        unfold is_key_lookup. now rewrite <- Hp.
      - intros s a Hin. apply (in_map fst) in Hin. rewrite Hcalls in Hin.
        apply in_map_iff in Hin as [p [Hp _]]. discriminate Hp. }
    destruct (W _ (Plaintext textBelt)) as [key|e]; cbn [snd] in Hd; subst d.
    + split.
      * cbn [filter is_key_lookup fst List.length]. rewrite (proj1 (Hloop _ _)). cbn. lia.
      * intros s a Hin. members Hin; try discriminate Hin.
        -- injection Hin as <- _. split; [reflexivity|].
           exists o5, o6, msg. split; [do 5 right; now left | exact He].
        -- now apply (proj2 (Hloop _ _)) in Hin.
    + split; [cbn; lia|].
      intros s a Hin. members Hin; try discriminate Hin.
      injection Hin as <- _. split; [reflexivity|].
      exists o5, o6, msg. split; [do 5 right; now left | exact He].
Qed.

End WholeRuns.

(** ** The expected answer of the generator *)

(** A run of plain characters up to the closing quote is read as it is. *)
Lemma scanstring_plain (py : interpreter) (depth : nat) (a : str) :
  forall fuel acc rest,
    forallb is_plain a = true ->
    (List.length a < fuel)%nat ->
    scanstring py depth fuel acc (a ++ DQUOTE :: rest) = Ok (rev acc ++ a, rest).
Proof.
  induction a as [|c a IH]; intros fuel acc rest Hplain Hfuel.
  - destruct fuel as [|fuel]; [inversion Hfuel|].
    cbn [app scanstring]. rewrite Z.eqb_refl. now rewrite app_nil_r.
  - destruct fuel as [|fuel]; [inversion Hfuel|].
    cbn [forallb] in Hplain. apply andb_true_iff in Hplain as [Hc Ha].
    unfold is_plain in Hc. apply andb_true_iff in Hc as [Hc H3].
    apply andb_true_iff in Hc as [H1 H2].
    apply negb_true_iff in H1, H2, H3.
    cbn [app scanstring]. rewrite H1, H2, H3.
    rewrite IH; [|exact Ha|cbn [List.length] in Hfuel; lia].
    cbn [rev]. now rewrite <- app_assoc.
Qed.

(** The envelope is an object: with no nested call left the scanner cannot
    enter it. *)
Lemma json_loads_envelope_too_deep (py : interpreter) (advice : str) :
  recursion_remaining py = 0%nat ->
  json_loads py (advice_envelope advice) = Raise (nested_too_deep "object").
Proof.
  intros Hdepth. unfold json_loads. rewrite Hdepth.
  change (startswith [0xFEFF] (advice_envelope advice)) with false. cbv iota.
  change (skip_ws (advice_envelope advice)) with (advice_envelope advice).
  rewrite Nat.add_comm. reflexivity.
Qed.

Lemma json_loads_envelope (py : interpreter) (advice : str) :
  recursion_remaining py <> 0%nat ->
  forallb is_plain advice = true ->
  json_loads py (advice_envelope advice) = Ok (PDict [(lit "advice", PStr advice)]).
Proof.
  intros Hdepth Hplain. unfold json_loads.
  destruct (recursion_remaining py) as [|depth]; [contradiction|]. clear Hdepth.
  change (startswith [0xFEFF] (advice_envelope advice)) with false. cbv iota.
  change (skip_ws (advice_envelope advice)) with (advice_envelope advice).
  assert (Hlen : (1 <= List.length (advice_envelope advice))%nat).
  { unfold advice_envelope. rewrite length_app.
    change (List.length (lit "{")) with 1%nat. lia. }
  remember (2 * List.length (advice_envelope advice) + 2)%nat as fuel eqn:Hfuel.
  assert (H3 : (3 <= fuel)%nat) by lia. clear Hfuel Hlen.
  destruct fuel as [|[|[|fuel]]]; try lia. clear H3.
  unfold advice_envelope.
  change (scan_once py (S (S (S fuel))) (S depth)
            (lit "{" ++ [DQUOTE] ++ lit "advice" ++ [DQUOTE] ++ lit ": " ++ [DQUOTE]
               ++ advice ++ [DQUOTE] ++ lit "}"))
    with (match scanstring py depth
                  (S (List.length (lit "advice" ++ DQUOTE :: lit ": " ++ [DQUOTE]
                                     ++ advice ++ [DQUOTE] ++ lit "}")))
                  [] (lit "advice" ++ DQUOTE :: lit ": " ++ [DQUOTE]
                                              ++ advice ++ [DQUOTE] ++ lit "}") with
          | Raise e => Raise e
          | Ok (key, r) =>
              match skip_ws r with
              | c :: r1 =>
                  if negb (c =? code ":")
                  then Raise (decoder_error py depth "Expecting ':' delimiter")
                  else
                    match scan_once py (S fuel) depth (skip_ws r1) with
                    | Raise e => Raise e
                    | Ok (v, r2) =>
                        match skip_ws r2 with
                        | c2 :: r3 =>
                            if c2 =? code "}"
                            then Ok (PDict (dict_set key v []), r3)
                            else if c2 =? code ","
                                 then parse_object_items py (S fuel) depth
                                        (dict_set key v []) (skip_ws r3)
                                 else Raise (decoder_error py depth
                                               "Expecting ',' delimiter")
                        | [] => Raise (decoder_error py depth "Expecting ',' delimiter")
                        end
                    end
              | [] => Raise (decoder_error py depth "Expecting ':' delimiter")
              end
          end).
  rewrite scanstring_plain; [|reflexivity|rewrite length_app; cbn [List.length]; lia].
  cbn [rev app].
  change (skip_ws (lit ": " ++ DQUOTE :: advice ++ DQUOTE :: lit "}"))
    with (code ":" :: code " " :: DQUOTE :: advice ++ DQUOTE :: lit "}").
  cbv iota. change (negb (code ":" =? code ":")) with false. cbv iota.
  change (skip_ws (code " " :: DQUOTE :: advice ++ DQUOTE :: lit "}"))
    with (DQUOTE :: advice ++ DQUOTE :: lit "}").
  change (scan_once py (S fuel) depth (DQUOTE :: advice ++ DQUOTE :: lit "}"))
    with (match scanstring py depth (S (List.length (advice ++ DQUOTE :: lit "}"))) []
                  (advice ++ DQUOTE :: lit "}") with
          | Ok (v, r) => Ok (PStr v, r)
          | Raise e => Raise e
          end).
  rewrite scanstring_plain; [|exact Hplain|rewrite length_app; cbn [List.length]; lia].
  reflexivity.
Qed.

(** X5.  For an advice text of plain characters (no quote, no backslash, no
    control character) the answer [{"advice": "<text>"}] is decoded to that
    text, and lines 84 and 85 hand [urllib.parse.quote] of it to [send];
    this in every interpreter that lets the scanner enter the object, the
    scanner raising its [RecursionError] in one that does not. *)
Theorem plain_advice_envelope_is_quoted (py : interpreter) (advice : str) :
  forallb is_plain advice = true ->
  match recursion_remaining py with
  | O => json_loads py (advice_envelope advice) = Raise (nested_too_deep "object")
  | S _ =>
      json_loads py (advice_envelope advice) = Ok (PDict [(lit "advice", PStr advice)])
      /\ encode_advice py (advice_envelope advice) = quote (PStr advice)
  end.
Proof.
  intros Hplain. destruct (recursion_remaining py) as [|depth] eqn:Hdepth.
  - now apply json_loads_envelope_too_deep.
  - assert (Hload : json_loads py (advice_envelope advice)
                    = Ok (PDict [(lit "advice", PStr advice)])).
    { apply json_loads_envelope; [|exact Hplain]. now rewrite Hdepth. }
    split; [exact Hload|].
    unfold encode_advice. rewrite Hload. cbn [py_get dict_get].
    now rewrite str_eqb_refl.
Qed.

Lemma plain_advice_envelope_is_quoted_witness :
  encode_advice sample_interpreter (advice_envelope (lit "Save 10% more"))
  = Ok (lit "Save%2010%25%20more").
Proof.
  exact (proj2 (plain_advice_envelope_is_quoted sample_interpreter
                  (lit "Save 10% more") eq_refl)).
Defined.


Lemma decoded_advice_is_well_formed_witness : wf_str (lit "Spend less on food").
Proof.
  exact (decoded_advice_is_well_formed sample_interpreter
           (advice_envelope (lit "Spend less on food"))
           [(lit "advice", PStr (lit "Spend less on food"))]
           (lit "Spend less on food")
           (wf_str_check (advice_envelope (lit "Spend less on food")) eq_refl)
           eq_refl eq_refl).
Defined.

Lemma delivered_message_decodes_to_advice_witness :
  exists items advice encoded_message p key,
    json_loads sample_interpreter (advice_envelope (lit "Spend less on food"))
    = Ok (PDict items)
    /\ dict_get (lit "advice") items = Some (PStr advice)
    /\ curl_call (lit "15512259418") (lit "Spend%20less%20on%20food") (lit "textbelt-key")
       = curl_call p encoded_message key
    /\ In p phone_numbers
    /\ unquote encoded_message = advice.
Proof.
  refine (delivered_message_decodes_to_advice
            (sample_world all_well) sample_interpreter
            API_KEY SHEET_ID DB_CONNECTION HF_TOKEN OPENAI_KEY
            TEXTBELT_KEY (lit "financial_data") (lit "transactions") []
            (lit "2024-05-01,12.50,grocer,food")
            (advice_envelope (lit "Spend less on food")) _ _
            (curl_call (lit "15512259418") (lit "Spend%20less%20on%20food")
               (lit "textbelt-key"), Ok body_success_true) _).
  - apply wf_str_check. reflexivity.
  - vm_compute. do 5 right. left. reflexivity.
  - vm_compute. right. left. reflexivity.
Defined.

